(** * typer_cli/main.py: resolution state, app discovery, lazy [run]
      augmentation and the Markdown documentation renderer.

    The Python module is embedded shallowly: strings are sequences of
    Unicode code points, the process-wide objects ([state], the host
    group's [commands] table, the output streams) live in an explicit
    process record threaded through a small state-and-exit monad, and
    everything the program asks of the interpreter and of the libraries
    it imports (file system, importlib, set iteration order, the Unicode
    tables, typer's conversion to click commands) is collected in an
    environment record. *)

From Stdlib Require Import NArith ZArith String Ascii Lia.
From stdpp Require Import base option list gmap sets sorting.

Set Default Proof Using "Type".

(** ** Python strings *)

(** A [str] is a list of code points. *)
Abbreviation str := (list N).

Definition py (s : string) : str := N_of_ascii <$> list_ascii_of_string s.
Arguments py s%_string : simpl never.

(** The line terminator. *)
Definition nl : str := [10%N].

(** Truthiness of a [str]: only the empty string is falsy. *)
Definition truthy (s : str) : bool :=
  match s with [] => false | _ :: _ => true end.

(** Truthiness of an [Optional[str]]. *)
Definition truthy_opt (o : option str) : bool :=
  match o with Some s => truthy s | None => false end.

Definition in_range (lo hi c : N) : bool := ((lo <=? c) && (c <=? hi))%N.

(** [str.isspace] on one code point (the interpreter's whitespace table). *)
Definition isspace (c : N) : bool :=
  in_range 9 13 c || in_range 28 32 c || (c =? 133)%N || (c =? 160)%N
  || (c =? 5760)%N || in_range 8192 8202 c || (c =? 8232)%N || (c =? 8233)%N
  || (c =? 8239)%N || (c =? 8287)%N || (c =? 12288)%N.

Fixpoint lstrip (s : str) : str :=
  match s with
  | c :: s' => if isspace c then lstrip s' else s
  | [] => []
  end.

Definition rstrip (s : str) : str := reverse (lstrip (reverse s)).

(** [s.strip()] *)
Definition strip (s : str) : str := rstrip (lstrip s).

(** [sep.join(pieces)] *)
Fixpoint join (sep : str) (pieces : list str) : str :=
  match pieces with
  | [] => []
  | [p] => p
  | p :: ps => p ++ sep ++ join sep ps
  end.

(** ** Regular expressions (the fragment [re.fullmatch] is used on) *)

Inductive regex :=
| ReEmpty
| ReEps
| ReClass (p : N → bool)
| ReCat (r s : regex)
| ReAlt (r s : regex)
| ReStar (r : regex).

Fixpoint nullable (r : regex) : bool :=
  match r with
  | ReEmpty => false
  | ReEps => true
  | ReClass _ => false
  | ReCat r s => nullable r && nullable s
  | ReAlt r s => nullable r || nullable s
  | ReStar _ => true
  end.

Fixpoint deriv (c : N) (r : regex) : regex :=
  match r with
  | ReEmpty => ReEmpty
  | ReEps => ReEmpty
  | ReClass p => if p c then ReEps else ReEmpty
  | ReCat r s =>
      if nullable r then ReAlt (ReCat (deriv c r) s) (deriv c s)
      else ReCat (deriv c r) s
  | ReAlt r s => ReAlt (deriv c r) (deriv c s)
  | ReStar r => ReCat (deriv c r) (ReStar r)
  end.

Fixpoint fullmatch (r : regex) (s : str) : bool :=
  match s with
  | [] => nullable r
  | c :: s' => fullmatch (deriv c r) s'
  end.

Definition ascii_letter (c : N) : bool := in_range 65 90 c || in_range 97 122 c.
Definition ascii_digit (c : N) : bool := in_range 48 57 c.

(** The class [[a-zA-Z_]]. *)
Definition ident_start (c : N) : bool := ascii_letter c || (c =? 95)%N.

(** ** Outcomes of a call *)

Inductive Exn :=
| Abort                (* typer.Abort *)
| PyError (what : str) (* any other exception *).

Inductive Res (A : Type) :=
| Ret (a : A)
| Exit (code : Z)      (* sys.exit(code) *)
| Raise (e : Exn).
Arguments Ret {A} a.
Arguments Exit {A} code.
Arguments Raise {A} e.

(** The exit status the process ends with when a call does not return:
    [sys.exit(n)] ends it with [n]; an exception that reaches click's top
    level ends it with status 1. *)
Definition exit_status {A} (r : Res A) : option Z :=
  match r with
  | Ret _ => None
  | Exit code => Some code
  | Raise _ => Some 1%Z
  end.

Definition terminated_nonzero {A} (r : Res A) : Prop :=
  ∃ code, exit_status r = Some code ∧ code ≠ 0%Z.

(** ** Objects of a loaded module and click commands *)

(** A value bound in a module namespace, seen through the two tests the
    program applies to it. *)
Record PyObj := mkObj {
  obj_id : N;
  isinstance_Typer : bool;   (* isinstance(obj, typer.Typer) *)
  callable : bool;           (* callable(obj) *)
}.

Global Instance PyObj_eq_dec : EqDecision PyObj.
Proof. solve_decision. Defined.

(** What discovery hands back: a [typer.Typer] found in the module, or a
    fresh [typer.Typer()] with one function registered through
    [sub_app.command()(func_obj)]. *)
Inductive TyperSource :=
| Existing (obj : PyObj)
| SubApp (func_obj : PyObj).

Record Typer := mkTyper {
  typer_source : TyperSource;
  _add_completion_off : bool;   (* [obj._add_completion = False] was executed *)
}.

Global Instance TyperSource_eq_dec : EqDecision TyperSource.
Proof. solve_decision. Defined.
Global Instance Typer_eq_dec : EqDecision Typer.
Proof. solve_decision. Defined.

Record Param := mkParam {
  param_type_name : str;
  get_help_record : option (str * str);
}.

(** A click command as the renderer reads it.  [cmd_children] is [None]
    for a plain command and, for a [Group], the commands
    [group.get_command(ctx, c)] for [c] in [group.list_commands(ctx)], in
    that order. *)
#[local] Unset Elimination Schemes.
Inductive Command := mkCommand {
  cmd_name : option str;
  cmd_help : option str;
  get_short_help_str : str;
  collect_usage_pieces : list str;
  get_params : list Param;
  cmd_epilog : option str;
  cmd_children : option (list Command);
}.
#[local] Set Elimination Schemes.

Record Path := mkPath { path_str : str }.
Global Instance Path_eq_dec : EqDecision Path.
Proof. solve_decision. Defined.

Record ModuleSpec := mkSpec { spec_name : str; spec_origin : str }.

(** ** The environment: interpreter and library behaviour *)

Record Env := mkEnv {
  (** [\w] on a code point outside ASCII (the Unicode database). *)
  unicode_word : N → bool;
  (** [file_path.exists() and file_path.is_file()] *)
  is_file : Path → bool;
  (** [importlib.util.spec_from_file_location(file.name, str(file))] *)
  spec_from_file_location : Path → option ModuleSpec;
  (** [importlib.util.find_spec(module)]; it imports parent packages and
      so may itself raise. *)
  find_spec : str → Res (option ModuleSpec);
  (** [module_from_spec(spec)] followed by [spec.loader.exec_module(module)]:
      the namespace of the executed module, unless its code exits or raises. *)
  exec_module : ModuleSpec → Res (gmap str PyObj);
  (** The order in which iterating a set of names yields them. *)
  set_iter : gset str → list str;
  set_iter_elem : ∀ X x, x ∈ set_iter X ↔ x ∈ X;
  (** [typer.main.get_command(obj)] *)
  typer_get_command : Typer → Command;
}.

(** ** Process state *)

Module State.
Record t := mk {
  app : option str;
  func : option str;
  file : option Path;
  module : option str;
}.
(** [State.__init__] *)
Definition init : t := mk None None None None.
End State.

Inductive Event :=
| Stdout (text : str)
| Stderr (text : str)
| WriteText (p : Path) (text : str)
| ExecModule (spec : ModuleSpec).

(** The mutable objects of the process: the global [state], the
    [commands] dict of the host group [cli], and the effects performed so
    far, oldest first. *)
Record Proc := mkProc {
  state : State.t;
  commands : gmap str Command;
  log : list Event;
}.

Definition M (A : Type) : Type := Proc → Res A * Proc.

Global Instance M_ret : MRet M := λ A a p, (Ret a, p).
Global Instance M_bind : MBind M := λ A B f m p,
  match m p with
  | (Ret a, p') => f a p'
  | (Exit code, p') => (Exit code, p')
  | (Raise e, p') => (Raise e, p')
  end.

Definition get_state : M State.t := λ p, (Ret (state p), p).
Definition set_state (s : State.t) : M unit :=
  λ p, (Ret (), mkProc s (commands p) (log p)).
Definition get_commands : M (gmap str Command) := λ p, (Ret (commands p), p).
Definition set_commands (c : gmap str Command) : M unit :=
  λ p, (Ret (), mkProc (state p) c (log p)).
Definition emit (e : Event) : M unit :=
  λ p, (Ret (), mkProc (state p) (commands p) (log p ++ [e])).
Definition sys_exit {A} (code : Z) : M A := λ p, (Exit code, p).
Definition raise {A} (e : Exn) : M A := λ p, (Raise e, p).
Definition lift {A} (r : Res A) : M A := λ p, (r, p).

(** [typer.echo(message, err=...)]: the message and a line terminator go
    to standard output, or to standard error when [err] is set. *)
Definition echo (message : str) (err : bool) : M unit :=
  emit (if err then Stderr (message ++ nl) else Stdout (message ++ nl)).

(** ** The program *)

Definition default_app_names : list str := [py "app"; py "cli"; py "main"].
Definition default_func_names : list str := [py "main"; py "cli"; py "app"].

(** [ctx.params] of the top-level command. *)
Module Params.
Record t := mk {
  path_or_module : option str;
  app : option str;
  func : option str;
}.
End Params.

(** How an f-string shows an [Optional[str]]. *)
Definition fmt_opt (o : option str) : str :=
  match o with Some s => s | None => py "None" end.

(** A [for] loop whose body may [return]: [Ret None] means the body fell
    through to the next iteration. *)
Fixpoint for_each {A B} (xs : list A) (body : A → Res (option B)) : Res (option B) :=
  match xs with
  | [] => Ret None
  | x :: xs' =>
      match body x with
      | Ret None => for_each xs' body
      | r => r
      end
  end.

(** [getattr(module, name)]: raises where the name is not bound. *)
Definition getattr (module : gmap str PyObj) (name : str) : Res PyObj :=
  match module !! name with
  | Some obj => Ret obj
  | None => Raise (PyError (py "AttributeError"))
  end.

(** [sub_app = typer.Typer(); sub_app.command()(func_obj)] *)
Definition sub_app (func_obj : PyObj) : Typer := mkTyper (SubApp func_obj) false.
Definition found_app (obj : PyObj) : Typer := mkTyper (Existing obj) false.

Section Program.
Context (env : Env).

(** [\w] of a [str] pattern. *)
Definition re_word (c : N) : bool :=
  if (c <? 128)%N then ascii_letter c || ascii_digit c || (c =? 95)%N
  else unicode_word env c.

Definition re_ident : regex :=
  ReCat (ReClass ident_start) (ReStar (ReClass re_word)).

(** The pattern of [maybe_update_state]: an identifier (a letter or
    underscore, then word characters), then any number of groups made of
    a dot and another identifier. *)
Definition module_re : regex :=
  ReCat re_ident (ReStar (ReCat (ReClass (N.eqb 46)) re_ident)).

Definition maybe_update_state (ctx : Params.t) : M unit :=
  match Params.path_or_module ctx with
  | Some path_or_module =>
      if truthy path_or_module then
        let file_path := mkPath path_or_module in
        if is_file env file_path then
          st ← get_state;
          set_state (State.mk (State.app st) (State.func st) (Some file_path) (State.module st))
        else
          (if negb (fullmatch module_re path_or_module) then
             echo (py "Not a valid file or Python module: " ++ path_or_module) true;;
             sys_exit 1
           else mret ());;
          st ← get_state;
          set_state (State.mk (State.app st) (State.func st) (State.file st) (Some path_or_module))
      else mret ()
  | None => mret ()
  end;;
  match Params.app ctx with
  | Some app_name =>
      if truthy app_name then
        st ← get_state;
        set_state (State.mk (Some app_name) (State.func st) (State.file st) (State.module st))
      else mret ()
  | None => mret ()
  end;;
  match Params.func ctx with
  | Some func_name =>
      if truthy func_name then
        st ← get_state;
        set_state (State.mk (State.app st) (Some func_name) (State.file st) (State.module st))
      else mret ()
  | None => mret ()
  end.

(** The four scans of [get_typer_from_module] once neither override is
    given.  [local_names_set] is [set(dir(module))]. *)
Definition scan_default_apps (module : gmap str PyObj) (local_names_set : gset str)
    : Res (option Typer) :=
  for_each default_app_names (λ name,
    if decide (name ∈ local_names_set) then
      match module !! name with
      | Some obj => if isinstance_Typer obj then Ret (Some (found_app obj)) else Ret None
      | None => Ret None
      end
    else Ret None).

Definition scan_any_app (module : gmap str PyObj) (local_names_set : gset str)
    : Res (option Typer) :=
  for_each (set_iter env (local_names_set ∖ list_to_set default_app_names)) (λ name,
    match getattr module name with
    | Ret obj => if isinstance_Typer obj then Ret (Some (found_app obj)) else Ret None
    | Exit code => Exit code
    | Raise e => Raise e
    end).

Definition scan_default_funcs (module : gmap str PyObj) : Res (option Typer) :=
  for_each default_func_names (λ func_name,
    match module !! func_name with
    | Some func_obj => if callable func_obj then Ret (Some (sub_app func_obj)) else Ret None
    | None => Ret None
    end).

Definition scan_any_func (module : gmap str PyObj) (local_names_set : gset str)
    : Res (option Typer) :=
  for_each (set_iter env (local_names_set ∖ list_to_set default_func_names)) (λ func_name,
    match getattr module func_name with
    | Ret func_obj => if callable func_obj then Ret (Some (sub_app func_obj)) else Ret None
    | Exit code => Exit code
    | Raise e => Raise e
    end).

(** Run the scans in order; the first one that returns an app decides. *)
Fixpoint first_of {B} (scans : list (Res (option B))) : Res (option B) :=
  match scans with
  | [] => Ret None
  | s :: rest =>
      match s with
      | Ret None => first_of rest
      | r => r
      end
  end.

Definition get_typer_from_module (module : gmap str PyObj) : M (option Typer) :=
  st ← get_state;
  if truthy_opt (State.app st) then
    match module !! default [] (State.app st) with
    | Some obj =>
        if isinstance_Typer obj then mret (Some (found_app obj))
        else
          echo (py "Not a Typer object: --app " ++ fmt_opt (State.app st)) true;;
          sys_exit 1
    | None =>
        echo (py "Not a Typer object: --app " ++ fmt_opt (State.app st)) true;;
        sys_exit 1
    end
  else if truthy_opt (State.func st) then
    match module !! default [] (State.func st) with
    | Some func_obj =>
        if callable func_obj then mret (Some (sub_app func_obj))
        else
          echo (py "Not a function: --func " ++ fmt_opt (State.func st)) true;;
          sys_exit 1
    | None =>
        echo (py "Not a function: --func " ++ fmt_opt (State.func st)) true;;
        sys_exit 1
    end
  else
    let local_names_set : gset str := dom module in
    lift (first_of [scan_default_apps module local_names_set;
                    scan_any_app module local_names_set;
                    scan_default_funcs module;
                    scan_any_func module local_names_set]).

Definition get_typer_from_state : M (option Typer) :=
  st ← get_state;
  spec ← match State.file st with
         | Some file => mret (spec_from_file_location env file)
         | None =>
             if truthy_opt (State.module st)
             then lift (find_spec env (default [] (State.module st)))
             else mret None
         end;
  match spec with
  | None =>
      match State.file st with
      | Some file => echo (py "Could not import as Python file: " ++ path_str file) true
      | None => echo (py "Could not import as Python module: " ++ fmt_opt (State.module st)) true
      end;;
      sys_exit 1
  | Some spec =>
      emit (ExecModule spec);;
      module ← lift (exec_module env spec);
      get_typer_from_module module
  end.

(** [cli.add_command(cmd)] of click's [Group]. *)
Definition add_command (cmd : Command) : M unit :=
  match cmd_name cmd with
  | Some name => cmds ← get_commands; set_commands (<[name := cmd]> cmds)
  | None => raise (PyError (py "TypeError"))
  end.

Definition set_name (cmd : Command) (name : option str) : Command :=
  mkCommand name (cmd_help cmd) (get_short_help_str cmd) (collect_usage_pieces cmd)
            (get_params cmd) (cmd_epilog cmd) (cmd_children cmd).
Definition set_help (cmd : Command) (help : option str) : Command :=
  mkCommand (cmd_name cmd) help (get_short_help_str cmd) (collect_usage_pieces cmd)
            (get_params cmd) (cmd_epilog cmd) (cmd_children cmd).

Definition default_run_help : str := py "Run the provided Typer app.".

Definition maybe_add_run_to_cli : M unit :=
  cmds ← get_commands;
  if decide (py "run" ∈ dom cmds) then mret ()
  else
    st ← get_state;
    if bool_decide (is_Some (State.file st)) || truthy_opt (State.module st) then
      obj ← get_typer_from_state;
      match obj with
      | Some obj =>
          let obj := mkTyper (typer_source obj) true in
          let click_obj := typer_get_command env obj in
          let click_obj := set_name click_obj (Some (py "run")) in
          let click_obj :=
            if negb (truthy_opt (cmd_help click_obj))
            then set_help click_obj (Some default_run_help)
            else click_obj in
          add_command click_obj
      | None => mret ()
      end
    else mret ().

(** [TyperCLIGroup.maybe_add_run] *)
Definition maybe_add_run (ctx : Params.t) : M unit :=
  maybe_update_state ctx;;
  maybe_add_run_to_cli.

End Program.

(** ** The documentation renderer *)

(** ["#" * n] *)
Definition hashes (n : nat) : str := replicate n 35%N.

(** [command_name] as [get_docs_for_click] computes it from its [name]
    and [call_prefix] arguments; it stays [None] when [obj.name] is. *)
Definition command_name_of (obj : Command) (name call_prefix : str) : option str :=
  let command_name := if truthy name then Some name else cmd_name obj in
  if truthy call_prefix
  then Some (call_prefix ++ py " " ++ fmt_opt command_name)
  else command_name.

Definition heading (indent : nat) (command_name : option str) : str :=
  let title :=
    if truthy_opt command_name
    then py "`" ++ fmt_opt command_name ++ py "`"
    else py "CLI" in
  hashes (1 + indent) ++ py " " ++ title ++ nl ++ nl.

Definition help_docs (obj : Command) : str :=
  if truthy_opt (cmd_help obj) then fmt_opt (cmd_help obj) ++ nl ++ nl else [].

Definition usage_docs (obj : Command) (command_name : option str) : str :=
  let usage_pieces := collect_usage_pieces obj in
  match usage_pieces with
  | [] => []
  | _ :: _ =>
      py "**Usage**:" ++ nl ++ nl
      ++ py "```console" ++ nl
      ++ py "$ "
      ++ (if truthy_opt command_name then fmt_opt command_name ++ py " " else [])
      ++ join (py " ") usage_pieces ++ nl
      ++ py "```" ++ nl ++ nl
  end.

(** The help records of the parameters whose [param_type_name] is [kind],
    in the order of [obj.get_params(ctx)]. *)
Definition records_of (kind : str) (params : list Param) : list (str * str) :=
  omap (λ param,
    match get_help_record param with
    | Some rv => if bool_decide (param_type_name param = kind) then Some rv else None
    | None => None
    end) params.

Definition bullet (item : str * str) : str :=
  py "* `" ++ item.1 ++ py "`"
  ++ (if truthy item.2 then py ": " ++ item.2 else [])
  ++ nl.

Definition bullet_list (title : str) (items : list (str * str)) : str :=
  match items with
  | [] => []
  | _ :: _ => title ++ nl ++ nl ++ concat (bullet <$> items) ++ nl
  end.

Definition args_docs (obj : Command) : str :=
  bullet_list (py "**Arguments**:") (records_of (py "argument") (get_params obj)).

Definition opts_docs (obj : Command) : str :=
  bullet_list (py "**Options**:") (records_of (py "option") (get_params obj)).

Definition epilog_docs (obj : Command) : str :=
  if truthy_opt (cmd_epilog obj) then fmt_opt (cmd_epilog obj) ++ nl ++ nl else [].

(** The [**Commands**] list of a group: one bullet per child with its
    name and short help. *)
Definition commands_docs (obj : Command) : str :=
  match cmd_children obj with
  | Some commands =>
      bullet_list (py "**Commands**:")
        ((λ command_obj, (fmt_opt (cmd_name command_obj), get_short_help_str command_obj))
           <$> commands)
  | None => []
  end.

(** Everything [get_docs_for_click] appends for [obj] itself, before it
    recurses into the children. *)
Definition own_docs (obj : Command) (indent : nat) (command_name : option str) : str :=
  heading indent command_name
  ++ help_docs obj
  ++ usage_docs obj command_name
  ++ args_docs obj
  ++ opts_docs obj
  ++ epilog_docs obj
  ++ commands_docs obj.

Definition use_prefix_of (command_name : option str) : str :=
  if truthy_opt command_name then fmt_opt command_name else [].

Fixpoint get_docs_for_click (obj : Command) (indent : nat) (name call_prefix : str)
    {struct obj} : str :=
  let command_name := command_name_of obj name call_prefix in
  own_docs obj indent command_name
  ++ match cmd_children obj with
     | Some commands =>
         (fix walk (cs : list Command) : str :=
            match cs with
            | [] => []
            | command_obj :: cs' =>
                get_docs_for_click command_obj (S indent) [] (use_prefix_of command_name)
                ++ walk cs'
            end) commands
     | None => []
     end.

Section Docs.
Context (env : Env).

(** The [docs] command of [utils_app]. *)
Definition docs (name : str) (output : option Path) : M unit :=
  typer_obj ← get_typer_from_state env;
  match typer_obj with
  | None =>
      echo (py "No Typer app found") true;;
      raise Abort
  | Some typer_obj =>
      let click_obj := typer_get_command env typer_obj in
      let docs := get_docs_for_click click_obj 0 name [] in
      let clean_docs := strip docs ++ nl in
      match output with
      | Some output =>
          emit (WriteText output clean_docs);;
          echo (py "Docs saved to: " ++ path_str output) false
      | None => echo clean_docs false
      end
  end.

End Docs.

(** ** Derived notions used in the statements *)

(** A sequence of [maybe_update_state] calls, as the entry points of
    [TyperCLIGroup], the callback and [get_choices] make them. *)
Fixpoint update_calls (env : Env) (ctxs : list Params.t) : M unit :=
  match ctxs with
  | [] => mret ()
  | ctx :: rest => maybe_update_state env ctx;; update_calls env rest
  end.

Definition is_load (e : Event) : bool :=
  match e with ExecModule _ => true | _ => false end.

(** How many times a module was executed. *)
Definition loads (l : list Event) : nat := length (filter is_load l).

(** What reached standard output, in order. *)
Definition stdout_of (l : list Event) : list str :=
  omap (λ e, match e with Stdout t => Some t | _ => None end) l.

(** What was written to files, in order. *)
Definition written_of (l : list Event) : list (Path * str) :=
  omap (λ e, match e with WriteText f t => Some (f, t) | _ => None end) l.

(** The object under the first name of [names] whose binding in
    [namespace] passes [test]. *)
Definition first_bound (test : PyObj → bool) (namespace : gmap str PyObj)
    (names : list str) : option PyObj :=
  head (omap (λ name,
    match namespace !! name with
    | Some obj => if test obj then Some obj else None
    | None => None
    end) names).

(** The search order of App Discovery as the specification words it
    (section 4.3), to compare [get_typer_from_module] with: the named
    application object or a failure; else the named callable wrapped as a
    one-command application or a failure; else the first application
    object under the preferred names, then under any other name; else the
    first callable under the preferred function names, then under any
    other name; else absent. *)
Definition discover (env : Env) (namespace : gmap str PyObj)
    (appName funcName : option str) : Res (option Typer) :=
  let other_than (preferred : list str) :=
    set_iter env (dom namespace ∖ list_to_set preferred) in
  match appName, funcName with
  | Some name, _ =>
      match namespace !! name with
      | Some obj => if isinstance_Typer obj then Ret (Some (found_app obj)) else Exit 1
      | None => Exit 1
      end
  | None, Some name =>
      match namespace !! name with
      | Some obj => if callable obj then Ret (Some (sub_app obj)) else Exit 1
      | None => Exit 1
      end
  | None, None =>
      match first_bound isinstance_Typer namespace default_app_names with
      | Some obj => Ret (Some (found_app obj))
      | None =>
      match first_bound isinstance_Typer namespace (other_than default_app_names) with
      | Some obj => Ret (Some (found_app obj))
      | None =>
      match first_bound callable namespace default_func_names with
      | Some obj => Ret (Some (sub_app obj))
      | None =>
      match first_bound callable namespace (other_than default_func_names) with
      | Some obj => Ret (Some (sub_app obj))
      | None => Ret None
      end end end end
  end.

(** An override counts as set when it is a non-empty string. *)
Definition override (o : option str) : option str :=
  if truthy_opt o then o else None.

(** The line [get_typer_from_module] prints before it exits on an
    override that names the wrong kind of object. *)
Definition override_error (st : State.t) : str :=
  if truthy_opt (State.app st)
  then py "Not a Typer object: --app " ++ fmt_opt (State.app st)
  else py "Not a function: --func " ++ fmt_opt (State.func st).

Definition add_log (p : Proc) (e : Event) : Proc :=
  mkProc (state p) (commands p) (log p ++ [e]).

(** [state.file or state.module]: a source is configured. *)
Definition has_source (st : State.t) : bool :=
  bool_decide (is_Some (State.file st)) || truthy_opt (State.module st).

(** The module spec [get_typer_from_state] looks up for the configured
    source. *)
Definition locate_spec (env : Env) (st : State.t) : Res (option ModuleSpec) :=
  match State.file st with
  | Some file => Ret (spec_from_file_location env file)
  | None =>
      if truthy_opt (State.module st)
      then find_spec env (default [] (State.module st))
      else Ret None
  end.

(** The line [get_typer_from_state] prints when no spec is found. *)
Definition import_error (st : State.t) : str :=
  match State.file st with
  | Some file => py "Could not import as Python file: " ++ path_str file
  | None => py "Could not import as Python module: " ++ fmt_opt (State.module st)
  end.

(** The command [maybe_add_run_to_cli] attaches for a discovered app:
    the conversion of the app with its completion switched off, renamed,
    and given the default help when it has none. *)
Definition run_command (env : Env) (obj : Typer) : Command :=
  let click_obj := typer_get_command env (mkTyper (typer_source obj) true) in
  let click_obj := set_name click_obj (Some (py "run")) in
  if negb (truthy_opt (cmd_help click_obj))
  then set_help click_obj (Some default_run_help)
  else click_obj.

Definition attach_run (env : Env) (obj : Typer) (p : Proc) : Proc :=
  mkProc (state p) (<[py "run" := run_command env obj]> (commands p)) (log p).

(** The children of a command in listing order; none for a plain
    command. *)
Definition children (obj : Command) : list Command := default [] (cmd_children obj).




(** A command tree of depth 3: a group holding a plain command and a
    group with one plain command. *)
Definition leaf (name : string) : Command :=
  mkCommand (Some (py name)) None [] [py "[OPTIONS]"] [] None None.
Definition group (name : string) (commands : list Command) : Command :=
  mkCommand (Some (py name)) None [] [py "[OPTIONS]"; py "COMMAND"; py "[ARGS]..."]
            [] None (Some commands).
Definition tree3 : Command :=
  group "top" [leaf "a"; group "sub" [leaf "b"]].

(** ** A concrete environment *)

Module Sample.

Definition typer_obj (n : N) : PyObj := mkObj n true true.
Definition function (n : N) : PyObj := mkObj n false true.
Definition constant (n : N) : PyObj := mkObj n false false.

Definition hello : Command :=
  mkCommand (Some (py "hello")) None [] [py "[OPTIONS]"] [] None None.

(** A script that binds an app under a name outside the preferred list,
    and a function [main]. *)
Definition script_ns : gmap str PyObj :=
  {[ py "x" := constant 1; py "main" := function 2; py "zapp" := typer_obj 3 ]}.

(** A module with nothing discovery could use. *)
Definition empty_ns : gmap str PyObj := {[ py "x" := constant 1 ]}.

Definition env : Env :=
  mkEnv (λ _, false)
    (λ p, bool_decide (p = mkPath (py "script.py")))
    (λ p, Some (mkSpec (path_str p) (path_str p)))
    (λ m, if bool_decide (m = py "mod") then Ret (Some (mkSpec m m)) else Ret None)
    (λ s, if bool_decide (spec_name s = py "mod") then Ret empty_ns else Ret script_ns)
    elements (λ X x, elem_of_elements X x)
    (λ _, hello).

Definition p0 : Proc := mkProc State.init ∅ [].
Definition with_file : Proc :=
  mkProc (State.mk None None (Some (mkPath (py "script.py"))) None) ∅ [].
Definition with_module : Proc :=
  mkProc (State.mk None None None (Some (py "mod"))) ∅ [].

Definition positional (s : str) : Params.t := Params.mk (Some s) None None.

End Sample.

(** ** Further notions: the language of a pattern *)

(** The strings a pattern denotes. *)
Inductive matches : regex → str → Prop :=
| MEps : matches ReEps []
| MClass p c : p c = true → matches (ReClass p) [c]
| MCat r1 r2 s1 s2 :
    matches r1 s1 → matches r2 s2 → matches (ReCat r1 r2) (s1 ++ s2)
| MAltL r1 r2 s : matches r1 s → matches (ReAlt r1 r2) s
| MAltR r1 r2 s : matches r2 s → matches (ReAlt r1 r2) s
| MStarNil r : matches (ReStar r) []
| MStarApp r s1 s2 :
    matches r s1 → matches (ReStar r) s2 → matches (ReStar r) (s1 ++ s2).

(** An identifier: a letter or underscore followed by word characters. *)
Definition is_identifier (env : Env) (seg : str) : bool :=
  match seg with
  | c :: t => ident_start c && forallb (re_word env) t
  | [] => false
  end.

(** ** Further notions: one update call as a function of the state *)

(** What one [maybe_update_state] call makes of the resolution state;
    [None] when the positional argument is neither a file nor a module
    name. *)
Definition updated_state (env : Env) (ctx : Params.t) (st : State.t) : option State.t :=
  let keep (o : option str) (old : option str) := if truthy_opt o then o else old in
  let finish (file : option Path) (module : option str) :=
    Some (State.mk (keep (Params.app ctx) (State.app st))
                   (keep (Params.func ctx) (State.func st)) file module) in
  match Params.path_or_module ctx with
  | Some s =>
      if truthy s then
        if is_file env (mkPath s) then finish (Some (mkPath s)) (State.module st)
        else if fullmatch (module_re env) s then finish (State.file st) (Some s)
        else None
      else finish (State.file st) (State.module st)
  | None => finish (State.file st) (State.module st)
  end.

Definition set_module (p : Proc) (module : option str) : Proc :=
  mkProc (State.mk (State.app (state p)) (State.func (state p)) (State.file (state p)) module)
         (commands p) (log p).

(** ** The entry points of the host group *)

(** Code-point order on strings, the order [sorted] puts [str] keys in. *)
Fixpoint str_leb (a b : str) : bool :=
  match a, b with
  | [], _ => true
  | _ :: _, [] => false
  | x :: a', y :: b' =>
      if (x <? y)%N then true
      else if (x =? y)%N then str_leb a' b'
      else false
  end.

Definition str_le (a b : str) : Prop := str_leb a b = true.

Global Instance str_le_dec (a b : str) : Decision (str_le a b).
Proof. unfold str_le. apply _. Defined.

(** [sorted(names)] *)
Definition sorted (names : list str) : list str := merge_sort str_le names.

Module TyperCLIGroup.
Section Methods.
Context (env : Env).

(** [self.maybe_add_run(ctx)], then [Group.list_commands]: the sorted
    keys of [self.commands]. *)
Definition list_commands (ctx : Params.t) : M (list str) :=
  maybe_add_run env ctx;;
  cmds ← get_commands;
  mret (sorted (elements (dom cmds))).

(** [self.maybe_add_run(ctx)], then [Group.get_command]:
    [self.commands.get(name)]. *)
Definition get_command (ctx : Params.t) (name : str) : M (option Command) :=
  maybe_add_run env ctx;;
  cmds ← get_commands;
  mret (cmds !! name).

End Methods.
End TyperCLIGroup.

(** ** Further notions: the path to a node of a command tree *)

(** The node reached from [obj] by following child positions. *)
Fixpoint descend (obj : Command) (path : list nat) : option Command :=
  match path with
  | [] => Some obj
  | i :: rest =>
      match children obj !! i with
      | Some command_obj => descend command_obj rest
      | None => None
      end
  end.

(** The names of the nodes below [obj] along [path], as an f-string
    shows them. *)
Fixpoint names_along (obj : Command) (path : list nat) : list str :=
  match path with
  | [] => []
  | i :: rest =>
      match children obj !! i with
      | Some command_obj => fmt_opt (cmd_name command_obj) :: names_along command_obj rest
      | None => []
      end
  end.

(** [command_name] in the call of [get_docs_for_click] that renders the
    node at [path], given the arguments of the outermost call. *)
Fixpoint command_name_at (obj : Command) (name call_prefix : str) (path : list nat)
    : option (option str) :=
  let command_name := command_name_of obj name call_prefix in
  match path with
  | [] => Some command_name
  | i :: rest =>
      match children obj !! i with
      | Some command_obj => command_name_at command_obj [] (use_prefix_of command_name) rest
      | None => None
      end
  end.

(** ** A second concrete environment *)

Module Sample2.

(** A script that binds both an app under [app] and a function [main]. *)
Definition app_and_main : gmap str PyObj :=
  {[ py "app" := Sample.typer_obj 5; py "main" := Sample.function 2 ]}.

(** [script.py] is the script above; [broken.py] exits with status 3
    while it is executed. *)
Definition env : Env :=
  mkEnv (λ _, false)
    (λ p, bool_decide (p = mkPath (py "script.py")) || bool_decide (p = mkPath (py "broken.py")))
    (λ p, Some (mkSpec (path_str p) (path_str p)))
    (λ m, Ret None)
    (λ s, if bool_decide (spec_name s = py "broken.py") then Exit 3 else Ret app_and_main)
    elements (λ X x, elem_of_elements X x)
    (λ _, Sample.hello).

Definition broken : Proc :=
  mkProc (State.mk None None (Some (mkPath (py "broken.py"))) None) ∅ [].

End Sample2.


(** ** Running the monad *)

Ltac run :=
  unfold mbind, M_bind, mret, M_ret, get_state, set_state, get_commands,
    set_commands, emit, echo, sys_exit, raise, lift in *; simpl in *.

Lemma truthy_nonempty (s : str) : truthy s = true ↔ s ≠ [].
Proof. destruct s; simpl; split; congruence. Qed.

(** The three outcomes of one [maybe_update_state] call on a non-empty
    positional argument. *)
Lemma maybe_update_state_cases (env : Env) (ctx : Params.t) (s : str) (p : Proc) :
  Params.path_or_module ctx = Some s →
  truthy s = true →
  let out := maybe_update_state env ctx p in
  if is_file env (mkPath s) then
    out.1 = Ret () ∧ State.file (state out.2) = Some (mkPath s)
    ∧ State.module (state out.2) = State.module (state p)
    ∧ commands out.2 = commands p ∧ log out.2 = log p
  else if fullmatch (module_re env) s then
    out.1 = Ret () ∧ State.module (state out.2) = Some s
    ∧ State.file (state out.2) = State.file (state p)
    ∧ commands out.2 = commands p ∧ log out.2 = log p
  else
    out.1 = Exit 1 ∧ state out.2 = state p ∧ commands out.2 = commands p
    ∧ log out.2 = log p ++ [Stderr (py "Not a valid file or Python module: " ++ s ++ nl)].
Proof.
  intros Hs Ht out. subst out.
  destruct p as [[a f fi mo] cmds lg]; destruct ctx as [pm an fn].
  simpl in Hs; subst pm. unfold maybe_update_state; simpl. rewrite Ht.
  destruct (is_file env (mkPath s)); [|destruct (fullmatch (module_re env) s)];
    destruct an as [an|]; destruct fn as [fn|];
    try destruct (truthy an); try destruct (truthy fn); run;
    rewrite <- ?app_assoc; auto.
Qed.

(** One call changes [state.file] and [state.module] only by setting
    them, and by the rule of the positional argument. *)
Lemma maybe_update_state_source (env : Env) (ctx : Params.t) (p : Proc) :
  let out := maybe_update_state env ctx p in
  (State.file (state out.2) = State.file (state p)
   ∨ ∃ s, Params.path_or_module ctx = Some s ∧ is_file env (mkPath s) = true
          ∧ State.file (state out.2) = Some (mkPath s))
  ∧ (State.module (state out.2) = State.module (state p)
     ∨ ∃ s, Params.path_or_module ctx = Some s ∧ is_file env (mkPath s) = false
            ∧ State.module (state out.2) = Some s).
Proof.
  destruct ctx as [[s|] an fn].
  - destruct (truthy s) eqn:Ht.
    + pose proof (maybe_update_state_cases env (Params.mk (Some s) an fn) s p eq_refl Ht) as H.
      cbv zeta in H |- *. simpl Params.path_or_module.
      destruct (is_file env (mkPath s)) eqn:Hf;
        [|destruct (fullmatch (module_re env) s)];
        destruct H as (_ & H1 & H2 & _).
      * split; [right; eauto | left; done].
      * split; [left; done | right; eauto].
      * rewrite H1. auto.
    + destruct p as [[a f fi mo] cmds lg]. unfold maybe_update_state; simpl. rewrite Ht.
      destruct an as [an|]; destruct fn as [fn|];
        try destruct (truthy an); try destruct (truthy fn); run; auto.
  - destruct p as [[a f fi mo] cmds lg]. unfold maybe_update_state; simpl.
    destruct an as [an|]; destruct fn as [fn|];
      try destruct (truthy an); try destruct (truthy fn); run; auto.
Qed.

Lemma update_calls_cons (env : Env) (ctx : Params.t) (rest : list Params.t) (p : Proc) :
  update_calls env (ctx :: rest) p =
  match maybe_update_state env ctx p with
  | (Ret _, p') => update_calls env rest p'
  | (Exit code, p') => (Exit code, p')
  | (Raise e, p') => (Raise e, p')
  end.
Proof.
  simpl. unfold mbind at 1, M_bind at 1.
  destruct (maybe_update_state env ctx p) as [[[]|?|?] ?]; reflexivity.
Qed.

(** Along any sequence of update calls whose positional argument is
    always [pos], a set [state.file] names an existing file and a set
    [state.module] names something that is not one. *)
Lemma update_calls_source_inv (env : Env) (pos : option str) (ctxs : list Params.t) :
  Forall (λ ctx, Params.path_or_module ctx = pos) ctxs →
  ∀ p,
    let I := λ st : State.t,
      (is_Some (State.file st) → ∃ s, pos = Some s ∧ is_file env (mkPath s) = true)
      ∧ (is_Some (State.module st) → ∃ s, pos = Some s ∧ is_file env (mkPath s) = false) in
    I (state p) → I (state (update_calls env ctxs p).2).
Proof.
  induction 1 as [|ctx rest Hctx _ IH]; intros p I HI; [exact HI|].
  rewrite update_calls_cons.
  pose proof (maybe_update_state_source env ctx p) as Hsrc. cbv zeta in Hsrc.
  assert (I (state (maybe_update_state env ctx p).2)) as HI'.
  { destruct Hsrc as [Hf Hm]. destruct HI as [HIf HIm]. split.
    - destruct Hf as [-> | (s & Hs & Hfile & ->)]; [exact HIf|].
      intros _. exists s. split; congruence.
    - destruct Hm as [-> | (s & Hs & Hfile & ->)]; [exact HIm|].
      intros _. exists s. split; congruence. }
  destruct (maybe_update_state env ctx p) as [[[]|?|?] p']; simpl in *; auto.
  apply IH. exact HI'.
Qed.

Lemma update_calls_keeps_set (env : Env) (ctxs : list Params.t) :
  ∀ p,
    (is_Some (State.file (state p)) → is_Some (State.file (state (update_calls env ctxs p).2)))
    ∧ (is_Some (State.module (state p)) → is_Some (State.module (state (update_calls env ctxs p).2))).
Proof.
  induction ctxs as [|ctx rest IH]; intros p; [simpl; auto|].
  rewrite update_calls_cons.
  pose proof (maybe_update_state_source env ctx p) as Hsrc. cbv zeta in Hsrc.
  assert ((is_Some (State.file (state p)) →
           is_Some (State.file (state (maybe_update_state env ctx p).2)))
          ∧ (is_Some (State.module (state p)) →
             is_Some (State.module (state (maybe_update_state env ctx p).2)))) as [Kf Km].
  { destruct Hsrc as [Hf Hm]. split.
    - destruct Hf as [-> | (s & _ & _ & ->)]; eauto.
    - destruct Hm as [-> | (s & _ & _ & ->)]; eauto. }
  destruct (maybe_update_state env ctx p) as [[[]|?|?] p']; simpl in *; auto.
  destruct (IH p') as [IHf IHm]. split; auto.
Qed.

(** ** Resolution state: claims C3 and C9 *)

(** C3, as stated, fails on the empty positional argument: it names no
    file and does not match the module pattern, yet the call returns and
    leaves the process as it was instead of terminating it. *)
Lemma empty_positional_returns :
  is_file Sample.env (mkPath []) = false
  ∧ fullmatch (module_re Sample.env) [] = false
  ∧ maybe_update_state Sample.env (Sample.positional []) Sample.p0 = (Ret (), Sample.p0).
Proof. repeat split; vm_compute; reflexivity. Qed.

(** C3 (amended to non-empty positional arguments): an existing regular
    file sets [state.file] and leaves [state.module] as it was; any other
    argument matching the dotted-identifier pattern sets [state.module]
    and leaves [state.file] as it was; any other argument ends the call
    with [sys.exit(1)] after one line on standard error, the state, the
    command table and the record of executed modules being untouched. *)
Theorem resolution_state_classification
    (env : Env) (ctx : Params.t) (s : str) (p : Proc) :
  Params.path_or_module ctx = Some s →
  s ≠ [] →
  let out := maybe_update_state env ctx p in
  if is_file env (mkPath s) then
    out.1 = Ret () ∧ State.file (state out.2) = Some (mkPath s)
    ∧ State.module (state out.2) = State.module (state p)
    ∧ loads (log out.2) = loads (log p)
  else if fullmatch (module_re env) s then
    out.1 = Ret () ∧ State.module (state out.2) = Some s
    ∧ State.file (state out.2) = State.file (state p)
    ∧ loads (log out.2) = loads (log p)
  else
    out.1 = Exit 1 ∧ terminated_nonzero out.1
    ∧ state out.2 = state p ∧ commands out.2 = commands p
    ∧ log out.2 = log p ++ [Stderr (py "Not a valid file or Python module: " ++ s ++ nl)]
    ∧ loads (log out.2) = loads (log p).
Proof.
  intros Hs Hne. apply truthy_nonempty in Hne.
  pose proof (maybe_update_state_cases env ctx s p Hs Hne) as H. cbv zeta in *.
  destruct (is_file env (mkPath s)); [|destruct (fullmatch (module_re env) s)].
  - destruct H as (H1 & H2 & H3 & H4 & H5). rewrite H5. auto.
  - destruct H as (H1 & H2 & H3 & H4 & H5). rewrite H5. auto.
  - destruct H as (H1 & H2 & H3 & H4). rewrite H4, H1. repeat split; auto.
    + exists 1%Z. split; [reflexivity | lia].
    + unfold loads. rewrite filter_app. simpl. rewrite length_app. simpl. lia.
Qed.

Lemma resolution_state_classification_witness :
  let out := maybe_update_state Sample.env (Sample.positional (py "a-b")) Sample.p0 in
  out.1 = Exit 1 ∧ terminated_nonzero out.1
  ∧ state out.2 = state Sample.p0 ∧ commands out.2 = commands Sample.p0
  ∧ log out.2 = log Sample.p0
                ++ [Stderr (py "Not a valid file or Python module: " ++ py "a-b" ++ nl)]
  ∧ loads (log out.2) = loads (log Sample.p0).
Proof.
  apply (resolution_state_classification Sample.env (Sample.positional (py "a-b"))
           (py "a-b") Sample.p0).
  - reflexivity.
  - vm_compute. discriminate.
Defined.

(** C9, as stated, fails: a call whose positional argument names an
    existing file followed by a call whose argument is a module name
    leaves both [state.file] and [state.module] set. *)
Lemma file_then_module_sets_both :
  let out := update_calls Sample.env
               [Sample.positional (py "script.py"); Sample.positional (py "mod")]
               Sample.p0 in
  out.1 = Ret ()
  ∧ State.file (state out.2) = Some (mkPath (py "script.py"))
  ∧ State.module (state out.2) = Some (py "mod").
Proof. vm_compute. auto. Qed.

(** C9 (amended): along every sequence of update calls a source field
    that is set stays set; and when the process starts with both unset
    and every call of the sequence carries the same positional argument,
    at most one of [state.file] and [state.module] is set afterwards. *)
Theorem source_fields_persist_and_exclude
    (env : Env) (ctxs : list Params.t) (p : Proc) :
  let st' := state (update_calls env ctxs p).2 in
  (is_Some (State.file (state p)) → is_Some (State.file st'))
  ∧ (is_Some (State.module (state p)) → is_Some (State.module st'))
  ∧ (∀ pos, Forall (λ ctx, Params.path_or_module ctx = pos) ctxs →
            State.file (state p) = None → State.module (state p) = None →
            ¬ (is_Some (State.file st') ∧ is_Some (State.module st'))).
Proof.
  cbv zeta. destruct (update_calls_keeps_set env ctxs p) as [Kf Km].
  split; [exact Kf|]. split; [exact Km|].
  intros pos Hall Hf Hm [Sf Sm].
  pose proof (update_calls_source_inv env pos ctxs Hall p) as HI. cbv zeta in HI.
  destruct HI as [If Im].
  { rewrite Hf, Hm. split; intros [? ?]; discriminate. }
  destruct (If Sf) as (s & Hs & Hfile). destruct (Im Sm) as (s' & Hs' & Hfile').
  congruence.
Qed.

Lemma source_fields_persist_and_exclude_witness :
  let ctxs := [Sample.positional (py "script.py"); Sample.positional (py "script.py")] in
  let st' := state (update_calls Sample.env ctxs Sample.p0).2 in
  is_Some (State.file st') ∧ ¬ (is_Some (State.file st') ∧ is_Some (State.module st')).
Proof.
  pose proof (source_fields_persist_and_exclude Sample.env
    [Sample.positional (py "script.py"); Sample.positional (py "script.py")] Sample.p0) as H.
  cbv zeta in *. destruct H as (_ & _ & H). split.
  - vm_compute. eauto.
  - apply (H (Some (py "script.py"))).
    + repeat constructor.
    + reflexivity.
    + reflexivity.
Defined.

(** ** App discovery: claims C1 and C4 *)

Lemma first_bound_cons (test : PyObj → bool) (m : gmap str PyObj) (name : str) (names : list str) :
  first_bound test m (name :: names) =
  match m !! name with
  | Some obj => if test obj then Some obj else first_bound test m names
  | None => first_bound test m names
  end.
Proof.
  unfold first_bound. simpl. destruct (m !! name) as [obj|]; [|reflexivity].
  destruct (test obj); reflexivity.
Qed.

(** [first_bound] finds nothing exactly when no name of the list is bound
    to an object that passes the test. *)
Lemma first_bound_None (test : PyObj → bool) (m : gmap str PyObj) (names : list str) :
  first_bound test m names = None ↔
  ∀ name obj, name ∈ names → m !! name = Some obj → test obj = false.
Proof.
  induction names as [|n names IH]; rewrite ?first_bound_cons.
  - split; [|reflexivity]. intros _ name obj Hin. inversion Hin.
  - split.
    + intros H name obj Hin Hm. apply elem_of_cons in Hin as [->|Hin].
      * rewrite Hm in H. destruct (test obj); [discriminate | reflexivity].
      * destruct (m !! n) as [o|]; [destruct (test o); [discriminate|]|];
          eapply (proj1 IH H); eauto.
    + intros H. destruct (m !! n) as [o|] eqn:Hn.
      * rewrite (H n o); [|left|exact Hn]. apply IH. intros. eapply H; [right|]; eauto.
      * apply IH. intros. eapply H; [right|]; eauto.
Qed.

(** What [first_bound] finds is bound under a name of the list, passes
    the test, and no earlier name of the list is bound to such an object. *)
Lemma first_bound_Some (test : PyObj → bool) (m : gmap str PyObj) (names : list str) (obj : PyObj) :
  first_bound test m names = Some obj →
  ∃ before name after,
    names = before ++ name :: after ∧ m !! name = Some obj ∧ test obj = true
    ∧ first_bound test m before = None.
Proof.
  induction names as [|n names IH]; [discriminate|].
  rewrite first_bound_cons. destruct (m !! n) as [o|] eqn:Hn.
  - destruct (test o) eqn:Ht.
    + intros [= ->]. exists [], n, names. auto.
    + intros H. destruct (IH H) as (b & name & a & -> & Hm & Hto & Hb).
      exists (n :: b), name, a. rewrite first_bound_cons, Hn, Ht. auto.
  - intros H. destruct (IH H) as (b & name & a & -> & Hm & Hto & Hb).
    exists (n :: b), name, a. rewrite first_bound_cons, Hn. auto.
Qed.

(** A scan through [getattr(module, name, None)]. *)
Lemma for_each_lookup (test : PyObj → bool) (wrap : PyObj → Typer)
    (m : gmap str PyObj) (names : list str) :
  for_each names (λ name,
    match m !! name with
    | Some obj => if test obj then Ret (Some (wrap obj)) else Ret None
    | None => Ret None
    end) = Ret (wrap <$> first_bound test m names).
Proof.
  induction names as [|n names IH]; [reflexivity|].
  simpl. rewrite first_bound_cons. destruct (m !! n) as [o|]; [|exact IH].
  destruct (test o); [reflexivity | exact IH].
Qed.

(** A scan through [getattr(module, name)] over names that are all bound
    never raises. *)
Lemma for_each_getattr (test : PyObj → bool) (wrap : PyObj → Typer)
    (m : gmap str PyObj) (names : list str) :
  (∀ name, name ∈ names → name ∈ dom m) →
  for_each names (λ name,
    match getattr m name with
    | Ret obj => if test obj then Ret (Some (wrap obj)) else Ret None
    | Exit code => Exit code
    | Raise e => Raise e
    end) = Ret (wrap <$> first_bound test m names).
Proof.
  induction names as [|n names IH]; intros Hdom; [reflexivity|].
  simpl. rewrite first_bound_cons. unfold getattr.
  destruct (m !! n) as [o|] eqn:Hn.
  - destruct (test o); [reflexivity|]. apply IH. intros; apply Hdom; by right.
  - exfalso. assert (n ∈ dom m) as Hin by (apply Hdom; left).
    apply elem_of_dom in Hin as [? ?]. congruence.
Qed.

Lemma for_each_ext {A B} (xs : list A) (f g : A → Res (option B)) :
  (∀ x, x ∈ xs → f x = g x) → for_each xs f = for_each xs g.
Proof.
  induction xs as [|x xs IH]; intros H; [reflexivity|].
  simpl. rewrite (H x) by left. rewrite IH; [reflexivity|].
  intros; apply H; by right.
Qed.

Lemma scan_default_apps_eq (m : gmap str PyObj) :
  scan_default_apps m (dom m)
  = Ret (found_app <$> first_bound isinstance_Typer m default_app_names).
Proof.
  unfold scan_default_apps. rewrite <- for_each_lookup.
  apply for_each_ext. intros name _.
  destruct (decide (name ∈ dom m)) as [|Hn]; [reflexivity|].
  apply not_elem_of_dom in Hn. rewrite Hn. reflexivity.
Qed.

Lemma scan_any_app_eq (env : Env) (m : gmap str PyObj) :
  scan_any_app env m (dom m)
  = Ret (found_app <$> first_bound isinstance_Typer m
           (set_iter env (dom m ∖ list_to_set default_app_names))).
Proof.
  unfold scan_any_app. apply for_each_getattr.
  intros name Hin. apply (proj1 (set_iter_elem env _ _)) in Hin.
  apply elem_of_difference in Hin as [Hin _]. exact Hin.
Qed.

Lemma scan_default_funcs_eq (m : gmap str PyObj) :
  scan_default_funcs m
  = Ret (sub_app <$> first_bound callable m default_func_names).
Proof. apply for_each_lookup. Qed.

Lemma scan_any_func_eq (env : Env) (m : gmap str PyObj) :
  scan_any_func env m (dom m)
  = Ret (sub_app <$> first_bound callable m
           (set_iter env (dom m ∖ list_to_set default_func_names))).
Proof.
  unfold scan_any_func. apply for_each_getattr.
  intros name Hin. apply (proj1 (set_iter_elem env _ _)) in Hin.
  apply elem_of_difference in Hin as [Hin _]. exact Hin.
Qed.

Lemma truthy_opt_override (o : option str) :
  (truthy_opt o = true ∧ ∃ s, o = Some s ∧ override o = Some s)
  ∨ (truthy_opt o = false ∧ override o = None).
Proof.
  unfold override. destruct o as [[|c s]|]; simpl; eauto.
Qed.

(** [get_typer_from_module] computes the specified search; it returns
    without touching the process, or exits after one line on standard
    error. *)
Lemma get_typer_from_module_eq (env : Env) (m : gmap str PyObj) (p : Proc) :
  get_typer_from_module env m p =
  match discover env m (override (State.app (state p))) (override (State.func (state p))) with
  | Ret r => (Ret r, p)
  | Exit code => (Exit code, add_log p (Stderr (override_error (state p) ++ nl)))
  | Raise e => (Raise e, p)
  end.
Proof.
  destruct p as [[a f fi mo] cmds lg]. unfold get_typer_from_module, override_error, add_log.
  unfold mbind at 1, M_bind at 1, get_state at 1. cbv beta iota.
  cbn [state State.app State.func commands log].
  destruct (truthy_opt_override a) as [(Ta & s & -> & Oa) | (Ta & Oa)]; rewrite Ta, Oa.
  - unfold discover. cbn [default from_option id].
    destruct (m !! s) as [obj|]; [destruct (isinstance_Typer obj)|]; reflexivity.
  - destruct (truthy_opt_override f) as [(Tf & s & -> & Of) | (Tf & Of)]; rewrite Tf, Of.
    + unfold discover. cbn [default from_option id].
      destruct (m !! s) as [obj|]; [destruct (callable obj)|]; reflexivity.
    + unfold discover, lift. cbv beta. unfold first_of.
      rewrite scan_default_apps_eq, scan_any_app_eq, scan_default_funcs_eq, scan_any_func_eq.
      destruct (first_bound isinstance_Typer m default_app_names); [reflexivity|].
      destruct (first_bound isinstance_Typer m (set_iter env _)); [reflexivity|].
      destruct (first_bound callable m default_func_names); [reflexivity|].
      destruct (first_bound callable m (set_iter env _)); reflexivity.
Qed.









(** ** Loading and lazy augmentation: claims C2, C5 and C6 *)

Lemma get_typer_from_state_eq (env : Env) (p : Proc) :
  get_typer_from_state env p =
  match locate_spec env (state p) with
  | Ret (Some spec) =>
      match exec_module env spec with
      | Ret module => get_typer_from_module env module (add_log p (ExecModule spec))
      | Exit code => (Exit code, add_log p (ExecModule spec))
      | Raise e => (Raise e, add_log p (ExecModule spec))
      end
  | Ret None => (Exit 1, add_log p (Stderr (import_error (state p) ++ nl)))
  | Exit code => (Exit code, p)
  | Raise e => (Raise e, p)
  end.
Proof.
  destruct p as [[a f fi mo] cmds lg].
  unfold get_typer_from_state, locate_spec, import_error, add_log.
  unfold mbind at 1, M_bind at 1, get_state at 1. cbv beta iota.
  cbn [state State.file State.module commands log].
  destruct fi as [file|].
  - unfold mbind at 1, M_bind at 1, mret at 1, M_ret at 1. cbv beta iota.
    destruct (spec_from_file_location env file) as [spec|]; [|reflexivity].
    unfold mbind, M_bind, emit, lift. cbn [state commands log].
    destruct (exec_module env spec); reflexivity.
  - destruct (truthy_opt mo).
    + unfold mbind at 1, M_bind at 1, lift at 1. cbv beta iota.
      destruct (find_spec env (default [] mo)) as [[spec|]|code|e]; reflexivity.
    + reflexivity.
Qed.

Lemma loads_add_exec (l : list Event) (spec : ModuleSpec) :
  loads (l ++ [ExecModule spec]) = S (loads l).
Proof. unfold loads. rewrite filter_app, length_app. simpl. lia. Qed.

Lemma loads_add_stderr (l : list Event) (t : str) :
  loads (l ++ [Stderr t]) = loads l.
Proof. unfold loads. rewrite filter_app, length_app. simpl. lia. Qed.

(** A call of [get_typer_from_state] leaves the state and the command
    table alone; when it returns, it has executed exactly one module and
    written nothing. *)
Lemma get_typer_from_state_frame (env : Env) (p : Proc) :
  let out := get_typer_from_state env p in
  state out.2 = state p ∧ commands out.2 = commands p
  ∧ loads (log out.2) ≤ S (loads (log p))
  ∧ (∀ r, out.1 = Ret r → ∃ spec, out.2 = add_log p (ExecModule spec)).
Proof.
  cbv zeta. rewrite get_typer_from_state_eq.
  destruct (locate_spec env (state p)) as [[spec|]|code|e]; cbn [fst snd].
  - destruct (exec_module env spec) as [m|code|e]; cbn [fst snd].
    + rewrite get_typer_from_module_eq.
      destruct (discover env m _ _) as [r|code|e]; cbn [fst snd add_log state commands log];
        rewrite ?loads_add_stderr, ?loads_add_exec; repeat split; eauto; discriminate.
    + cbn [add_log state commands log]. rewrite loads_add_exec.
      repeat split; eauto; discriminate.
    + cbn [add_log state commands log]. rewrite loads_add_exec.
      repeat split; eauto; discriminate.
  - cbn [add_log state commands log]. rewrite loads_add_stderr.
    repeat split; eauto; discriminate.
  - repeat split; eauto; discriminate.
  - repeat split; eauto; discriminate.
Qed.

Lemma maybe_add_run_to_cli_eq (env : Env) (p : Proc) :
  maybe_add_run_to_cli env p =
  if decide (py "run" ∈ dom (commands p)) then (Ret (), p)
  else if has_source (state p) then
    match get_typer_from_state env p with
    | (Ret (Some obj), p') => (Ret (), attach_run env obj p')
    | (Ret None, p') => (Ret (), p')
    | (Exit code, p') => (Exit code, p')
    | (Raise e, p') => (Raise e, p')
    end
  else (Ret (), p).
Proof.
  unfold maybe_add_run_to_cli.
  unfold mbind at 1, M_bind at 1, get_commands at 1. cbv beta iota.
  destruct (decide (py "run" ∈ dom (commands p))); [reflexivity|].
  unfold mbind at 1, M_bind at 1, get_state at 1. cbv beta iota.
  unfold has_source. destruct (_ || _); [|reflexivity].
  unfold mbind at 1, M_bind at 1.
  destruct (get_typer_from_state env p) as [[[obj|]|code|e] p']; try reflexivity.
  unfold attach_run, run_command, add_command.
  destruct (negb _); reflexivity.
Qed.


Lemma maybe_add_run_to_cli_present (env : Env) (p : Proc) :
  py "run" ∈ dom (commands p) → maybe_add_run_to_cli env p = (Ret (), p).
Proof.
  intros H. rewrite maybe_add_run_to_cli_eq.
  destruct (decide (py "run" ∈ dom (commands p))); [reflexivity | contradiction].
Qed.







(** C6: when loading or discovery fails, or discovery finds no
    application, the command table of the host group after
    [maybe_add_run_to_cli] is the one before it; and in every case the
    entries other than [run] are untouched. *)
Theorem augmentation_frame (env : Env) (p : Proc) :
  let out := maybe_add_run_to_cli env p in
  ((∀ obj, (get_typer_from_state env p).1 ≠ Ret (Some obj)) → commands out.2 = commands p)
  ∧ (out.1 ≠ Ret () → commands out.2 = commands p)
  ∧ (∀ name, name ≠ py "run" → commands out.2 !! name = commands p !! name).
Proof.
  cbv zeta. pose proof (get_typer_from_state_frame env p) as (_ & Hc & _ & _).
  rewrite maybe_add_run_to_cli_eq.
  destruct (decide (py "run" ∈ dom (commands p))); [auto|].
  destruct (has_source (state p)); [|auto].
  destruct (get_typer_from_state env p) as [[[obj|]|code|e] q]; cbn [fst snd] in *;
    try (rewrite Hc; auto).
  split; [|split].
  - intros H. exfalso. apply (H obj). reflexivity.
  - intros H. exfalso. apply H. reflexivity.
  - intros name Hne. unfold attach_run. cbn [commands].
    rewrite lookup_insert_ne by congruence. rewrite Hc. reflexivity.
Qed.

Lemma augmentation_frame_witness :
  commands (maybe_add_run_to_cli Sample.env Sample.with_module).2
  = commands Sample.with_module.
Proof.
  pose proof (augmentation_frame Sample.env Sample.with_module) as H.
  cbv zeta in H. destruct H as (H & _ & _). apply H.
  intros obj E. vm_compute in E. discriminate E.
Defined.

(** ** The [docs] command: claims C7 and C10 *)






Lemma stdout_of_app (l1 l2 : list Event) :
  stdout_of (l1 ++ l2) = stdout_of l1 ++ stdout_of l2.
Proof. apply omap_app. Qed.

Lemma written_of_app (l1 l2 : list Event) :
  written_of (l1 ++ l2) = written_of l1 ++ written_of l2.
Proof. apply omap_app. Qed.

Lemma docs_eq (env : Env) (name : str) (output : option Path) (p : Proc) :
  docs env name output p =
  match get_typer_from_state env p with
  | (Ret (Some typer_obj), p') =>
      let clean_docs :=
        strip (get_docs_for_click (typer_get_command env typer_obj) 0 name []) ++ nl in
      match output with
      | Some output =>
          (Ret (), add_log (add_log p' (WriteText output clean_docs))
                     (Stdout ((py "Docs saved to: " ++ path_str output) ++ nl)))
      | None => (Ret (), add_log p' (Stdout (clean_docs ++ nl)))
      end
  | (Ret None, p') => (Raise Abort, add_log p' (Stderr (py "No Typer app found" ++ nl)))
  | (Exit code, p') => (Exit code, p')
  | (Raise e, p') => (Raise e, p')
  end.
Proof.
  unfold docs. unfold mbind at 1, M_bind at 1.
  destruct (get_typer_from_state env p) as [[[obj|]|code|e] p']; try reflexivity.
  destruct output; reflexivity.
Qed.




(** C10: when discovery finds no application, [docs] prints
    "No Typer app found" on standard error and aborts, which ends the
    process with a non-zero status; nothing is written to standard output
    or to a file, and the host group is left alone. *)
Theorem docs_without_app_aborts (env : Env) (name : str) (output : option Path) (p : Proc) :
  (get_typer_from_state env p).1 = Ret None →
  let out := docs env name output p in
  out.1 = Raise Abort
  ∧ terminated_nonzero out.1
  ∧ log out.2 = log (get_typer_from_state env p).2
                ++ [Stderr (py "No Typer app found" ++ nl)]
  ∧ stdout_of (log out.2) = stdout_of (log p)
  ∧ written_of (log out.2) = written_of (log p)
  ∧ commands out.2 = commands p.
Proof.
  intros Habsent. cbv zeta. rewrite docs_eq.
  pose proof (get_typer_from_state_frame env p) as (_ & _ & _ & Hret).
  destruct (get_typer_from_state env p) as [r p']. cbn [fst snd] in *. subst r.
  destruct (Hret _ eq_refl) as [spec ->]. cbn [fst snd add_log log commands].
  split; [reflexivity|]. split; [exists 1%Z; split; [reflexivity | lia]|].
  split; [reflexivity|].
  rewrite !stdout_of_app, !written_of_app. cbn. rewrite !app_nil_r. auto.
Qed.

Lemma docs_without_app_aborts_witness :
  let out := docs Sample.env [] None Sample.with_module in
  out.1 = Raise Abort ∧ stdout_of (log out.2) = [] ∧ written_of (log out.2) = [].
Proof.
  pose proof (docs_without_app_aborts Sample.env [] None Sample.with_module) as H.
  cbv zeta in *. destruct H as (H1 & _ & _ & H4 & H5 & _).
  - vm_compute. reflexivity.
  - split; [exact H1|]. split; [exact H4 | exact H5].
Defined.

(** ** The renderer: claim C8 *)


Lemma get_docs_for_click_unfold (obj : Command) (indent : nat) (name call_prefix : str) :
  let command_name := command_name_of obj name call_prefix in
  get_docs_for_click obj indent name call_prefix
  = own_docs obj indent command_name
    ++ concat ((λ command_obj,
                  get_docs_for_click command_obj (S indent) [] (use_prefix_of command_name))
                 <$> children obj).
Proof.
  destruct obj as [n h sh up ps ep [commands|]]; cbv zeta.
  - cbn [get_docs_for_click cmd_children children default from_option id]. f_equal.
    generalize (use_prefix_of
                  (command_name_of (mkCommand n h sh up ps ep (Some commands))
                     name call_prefix)).
    intros pre. induction commands as [|c cs IH]; [reflexivity|].
    rewrite fmap_cons, concat_cons, IH. reflexivity.
  - reflexivity.
Qed.








(** ** The module-name pattern *)

Lemma matches_cat (r1 r2 : regex) (s : str) :
  matches (ReCat r1 r2) s ↔ ∃ s1 s2, s = s1 ++ s2 ∧ matches r1 s1 ∧ matches r2 s2.
Proof.
  split.
  - intros H. inversion H; subst. eauto.
  - intros (s1 & s2 & -> & H1 & H2). constructor; auto.
Qed.

Lemma matches_alt (r1 r2 : regex) (s : str) :
  matches (ReAlt r1 r2) s ↔ matches r1 s ∨ matches r2 s.
Proof.
  split.
  - intros H. inversion H; subst; auto.
  - intros [H|H]; [apply MAltL | apply MAltR]; exact H.
Qed.

Lemma matches_class (p : N → bool) (s : str) :
  matches (ReClass p) s ↔ ∃ c, s = [c] ∧ p c = true.
Proof.
  split.
  - intros H. inversion H; subst. eauto.
  - intros (c & -> & H). constructor. exact H.
Qed.

Lemma matches_eps (s : str) : matches ReEps s ↔ s = [].
Proof.
  split.
  - intros H. inversion H. reflexivity.
  - intros ->. constructor.
Qed.

Lemma matches_empty (s : str) : ¬ matches ReEmpty s.
Proof. intros H. inversion H. Qed.

Lemma nullable_matches (r : regex) : nullable r = true ↔ matches r [].
Proof.
  induction r as [| |p|r1 IH1 r2 IH2|r1 IH1 r2 IH2|r IH]; simpl.
  - split; [discriminate | intros H; destruct (matches_empty _ H)].
  - split; [constructor | reflexivity].
  - split; [discriminate|]. intros H. apply matches_class in H as (c & H & _).
    discriminate H.
  - rewrite andb_true_iff, IH1, IH2, matches_cat. split.
    + intros [H1 H2]. exists [], []. auto.
    + intros (s1 & s2 & Hs & H1 & H2). symmetry in Hs.
      apply app_eq_nil in Hs as [-> ->]. auto.
  - rewrite orb_true_iff, IH1, IH2, matches_alt. reflexivity.
  - split; [constructor | reflexivity].
Qed.

Lemma matches_star_cons (r : regex) (c : N) (s : str) :
  matches (ReStar r) (c :: s) →
  ∃ s1 s2, s = s1 ++ s2 ∧ matches r (c :: s1) ∧ matches (ReStar r) s2.
Proof.
  intros H. remember (ReStar r) as r' eqn:Hr. remember (c :: s) as t eqn:Ht.
  revert s Ht. induction H as [| | | | | |r0 s1 s2 H1 _ H2 IH2]; intros s' Ht;
    try discriminate.
  injection Hr as ->. destruct s1 as [|x s1].
  - simpl in Ht. apply IH2; auto.
  - simpl in Ht. injection Ht as -> <-. eauto.
Qed.

Lemma deriv_matches (c : N) (r : regex) :
  ∀ s, matches (deriv c r) s ↔ matches r (c :: s).
Proof.
  induction r as [| |p|r1 IH1 r2 IH2|r1 IH1 r2 IH2|r IH]; intros s; simpl.
  - split; intros H; destruct (matches_empty _ H).
  - split; [intros H; destruct (matches_empty _ H)|].
    intros H. apply matches_eps in H. discriminate H.
  - rewrite matches_class. destruct (p c) eqn:Hp.
    + rewrite matches_eps. split.
      * intros ->. eauto.
      * intros (x & [= _ ->] & _). reflexivity.
    + split; [intros H; destruct (matches_empty _ H)|].
      intros (x & [= <- _] & Hx). congruence.
  - assert (matches (ReCat (deriv c r1) r2) s
            ↔ ∃ s1 s2, s = s1 ++ s2 ∧ matches r1 (c :: s1) ∧ matches r2 s2) as Hcat.
    { rewrite matches_cat. split; intros (s1 & s2 & -> & H1 & H2);
        exists s1, s2; (split; [reflexivity|]); (split; [apply IH1; exact H1 | exact H2]). }
    rewrite (matches_cat r1 r2 (c :: s)).
    destruct (nullable r1) eqn:Hn.
    + rewrite matches_alt, Hcat, IH2. split.
      * intros [(s1 & s2 & -> & H1 & H2) | H].
        -- exists (c :: s1), s2. auto.
        -- exists [], (c :: s). split; [reflexivity|].
           split; [apply nullable_matches; exact Hn | exact H].
      * intros (s1 & s2 & Hs & H1 & H2). destruct s1 as [|x s1]; simpl in Hs.
        -- subst s2. right. exact H2.
        -- injection Hs as <- ->. left. eauto.
    + rewrite Hcat. split.
      * intros (s1 & s2 & -> & H1 & H2). exists (c :: s1), s2. auto.
      * intros (s1 & s2 & Hs & H1 & H2). destruct s1 as [|x s1]; simpl in Hs.
        -- apply nullable_matches in H1. congruence.
        -- injection Hs as <- ->. eauto.
  - rewrite !matches_alt, IH1, IH2. reflexivity.
  - rewrite matches_cat. split.
    + intros (s1 & s2 & -> & H1 & H2). apply IH in H1.
      change (c :: s1 ++ s2) with ((c :: s1) ++ s2). constructor; auto.
    + intros H. apply matches_star_cons in H as (s1 & s2 & -> & H1 & H2).
      exists s1, s2. split; [reflexivity|]. split; [apply IH; exact H1 | exact H2].
Qed.

(** [fullmatch] decides membership in the language of the pattern. *)
Lemma fullmatch_matches (r : regex) (s : str) : fullmatch r s = true ↔ matches r s.
Proof.
  revert r. induction s as [|c s IH]; intros r; simpl.
  - apply nullable_matches.
  - rewrite IH. apply deriv_matches.
Qed.

Lemma matches_star_class (w : N → bool) (t : str) :
  matches (ReStar (ReClass w)) t ↔ forallb w t = true.
Proof.
  split.
  - intros H. remember (ReStar (ReClass w)) as r eqn:Hr.
    induction H as [| | | | | |r0 s1 s2 H1 _ H2 IH2]; try discriminate; [reflexivity|].
    injection Hr as ->. apply matches_class in H1 as (c & -> & Hc).
    simpl. rewrite Hc. apply IH2. reflexivity.
  - induction t as [|c t IH]; simpl; intros H; [constructor|].
    apply andb_true_iff in H as [Hc Ht]. change (c :: t) with ([c] ++ t).
    constructor; [constructor; exact Hc | apply IH; exact Ht].
Qed.

Lemma matches_ident (env : Env) (seg : str) :
  matches (re_ident env) seg ↔ is_identifier env seg = true.
Proof.
  unfold re_ident. rewrite matches_cat. split.
  - intros (s1 & s2 & -> & H1 & H2). apply matches_class in H1 as (c & -> & Hc).
    apply matches_star_class in H2. simpl. rewrite Hc, H2. reflexivity.
  - destruct seg as [|c t]; simpl; [discriminate|].
    intros H. apply andb_true_iff in H as [Hc Ht].
    exists [c], t. split; [reflexivity|].
    split; [constructor; exact Hc | apply matches_star_class; exact Ht].
Qed.

(** A run of groups, each a dot followed by an identifier. *)
Lemma matches_dotted_tail (env : Env) (u : str) :
  matches (ReStar (ReCat (ReClass (N.eqb 46)) (re_ident env))) u ↔
  ∃ segs, Forall (λ seg, is_identifier env seg = true) segs
          ∧ u = concat ((λ seg, 46%N :: seg) <$> segs).
Proof.
  split.
  - intros H. remember (ReStar (ReCat (ReClass (N.eqb 46)) (re_ident env))) as r eqn:Hr.
    induction H as [| | | | | |r0 s1 s2 H1 _ H2 IH2]; try discriminate.
    + exists []. split; [constructor | reflexivity].
    + injection Hr as ->. destruct (IH2 eq_refl) as (segs & Hsegs & ->).
      apply matches_cat in H1 as (d & seg & -> & Hd & Hseg).
      apply matches_class in Hd as (c & -> & Hc). apply N.eqb_eq in Hc as <-.
      apply matches_ident in Hseg.
      exists (seg :: segs). split; [constructor; assumption | reflexivity].
  - intros (segs & Hsegs & ->). induction Hsegs as [|seg segs Hseg _ IH]; [constructor|].
    rewrite fmap_cons, concat_cons. constructor; [|exact IH].
    change (46%N :: seg) with ([46%N] ++ seg).
    constructor; [constructor; reflexivity | apply matches_ident; exact Hseg].
Qed.

Lemma join_cons (sep p : str) (ps : list str) :
  join sep (p :: ps) = p ++ concat ((λ q, sep ++ q) <$> ps).
Proof.
  revert p. induction ps as [|q ps IH]; intros p.
  - simpl. rewrite app_nil_r. reflexivity.
  - change (join sep (p :: q :: ps)) with (p ++ sep ++ join sep (q :: ps)).
    rewrite IH, fmap_cons, concat_cons, <- app_assoc. reflexivity.
Qed.

Lemma module_re_accepts (env : Env) (segs : list str) :
  segs ≠ [] → Forall (λ seg, is_identifier env seg = true) segs →
  fullmatch (module_re env) (join (py ".") segs) = true.
Proof.
  intros Hne Hsegs. apply fullmatch_matches. unfold module_re. apply matches_cat.
  destruct Hsegs as [|seg segs Hseg Hsegs]; [done|].
  exists seg, (concat ((λ q, 46%N :: q) <$> segs)).
  split; [rewrite join_cons; reflexivity|].
  split; [apply matches_ident; exact Hseg|].
  apply matches_dotted_tail. eauto.
Qed.

Lemma ident_start_word (env : Env) (c : N) : ident_start c = true → re_word env c = true.
Proof.
  unfold ident_start, re_word, ascii_letter, in_range. intros H.
  destruct (N.ltb_spec c 128) as [Hlt|Hge].
  - apply orb_true_iff in H as [H|H]; rewrite H; rewrite ?orb_true_r; reflexivity.
  - exfalso. rewrite !orb_true_iff, !andb_true_iff, !N.leb_le, N.eqb_eq in H. lia.
Qed.

Lemma identifier_chars (env : Env) (seg : str) :
  is_identifier env seg = true → Forall (λ c, re_word env c = true) seg.
Proof.
  destruct seg as [|c t]; simpl; [discriminate|]. intros H.
  apply andb_true_iff in H as [Hc Ht]. constructor.
  - apply ident_start_word. exact Hc.
  - apply Forall_forall. intros x Hx. rewrite forallb_forall in Ht.
    apply Ht. apply list_elem_of_In. exact Hx.
Qed.

(** A string the pattern accepts is not empty and consists of word
    characters and dots. *)
Lemma module_re_chars (env : Env) (s : str) :
  fullmatch (module_re env) s = true →
  s ≠ [] ∧ Forall (λ c, re_word env c = true ∨ c = 46%N) s.
Proof.
  intros H. apply fullmatch_matches in H. unfold module_re in H.
  apply matches_cat in H as (s1 & s2 & -> & H1 & H2).
  apply matches_ident in H1. apply matches_dotted_tail in H2 as (segs & Hsegs & ->).
  split.
  - destruct s1; [discriminate H1 | discriminate].
  - apply Forall_app. split.
    + eapply Forall_impl; [apply identifier_chars; exact H1|]. simpl. auto.
    + induction Hsegs as [|seg segs Hseg _ IH]; [constructor|].
      rewrite fmap_cons, concat_cons. apply Forall_app. split; [|exact IH].
      constructor; [right; reflexivity|].
      eapply Forall_impl; [apply identifier_chars; exact Hseg|]. simpl. auto.
Qed.

(** X1: the pattern [maybe_update_state] checks a module name against
    accepts exactly the non-empty lists of identifiers joined by dots. *)
Theorem module_re_dotted_identifiers (env : Env) (s : str) :
  fullmatch (module_re env) s = true ↔
  ∃ segs, segs ≠ [] ∧ Forall (λ seg, is_identifier env seg = true) segs
          ∧ s = join (py ".") segs.
Proof.
  split.
  - rewrite fullmatch_matches. unfold module_re. rewrite matches_cat.
    intros (s1 & s2 & -> & H1 & H2). apply matches_ident in H1.
    apply matches_dotted_tail in H2 as (segs & Hsegs & ->).
    exists (s1 :: segs). split; [discriminate|]. split; [constructor; assumption|].
    rewrite join_cons. reflexivity.
  - intros (segs & Hne & Hsegs & ->). apply module_re_accepts; assumption.
Qed.

Lemma module_re_dotted_identifiers_witness :
  fullmatch (module_re Sample.env) (py "os.path") = true
  ∧ fullmatch (module_re Sample.env) (py "os..path") = false.
Proof.
  split.
  - apply module_re_dotted_identifiers. exists [py "os"; py "path"].
    split; [discriminate|]. split; [repeat constructor | reflexivity].
  - reflexivity.
Defined.

(** ** One update call, seen from the state *)

Lemma maybe_update_state_eq (env : Env) (ctx : Params.t) (p : Proc) :
  maybe_update_state env ctx p =
  match updated_state env ctx (state p) with
  | Some st => (Ret (), mkProc st (commands p) (log p))
  | None =>
      (Exit 1, add_log p (Stderr ((py "Not a valid file or Python module: "
                                     ++ default [] (Params.path_or_module ctx)) ++ nl)))
  end.
Proof.
  destruct p as [[a f fi mo] cmds lg]; destruct ctx as [pm an fn].
  unfold maybe_update_state, updated_state, add_log; simpl.
  destruct pm as [s|]; [destruct (truthy s);
    [destruct (is_file env (mkPath s)); [|destruct (fullmatch (module_re env) s)]|]|];
    destruct an as [an|]; destruct fn as [fn|]; simpl;
    try destruct (truthy an); try destruct (truthy fn); reflexivity.
Qed.

(** ** Resolution state: further properties *)

Lemma updated_state_idempotent (env : Env) (ctx : Params.t) (st st' : State.t) :
  updated_state env ctx st = Some st' → updated_state env ctx st' = Some st'.
Proof.
  destruct st as [a f fi mo]; destruct ctx as [pm an fn]. unfold updated_state; simpl.
  assert (∀ o old, (if truthy_opt o then o else if truthy_opt o then o else old)
                   = (if truthy_opt o then o else old)) as Hk.
  { intros o old. destruct (truthy_opt o); reflexivity. }
  destruct pm as [s|]; [destruct (truthy s);
    [destruct (is_file env (mkPath s)); [|destruct (fullmatch (module_re env) s)]|]|];
    intros [= <-]; simpl; rewrite ?Hk; reflexivity.
Qed.

(** X2: a positional argument that is no existing file but reads as
    identifiers joined by dots is recorded as the module name, and the
    call returns; this includes a mistyped file name such as [scrpt.py]. *)
Theorem dotted_name_is_taken_as_module
    (env : Env) (ctx : Params.t) (segs : list str) (p : Proc) :
  segs ≠ [] →
  Forall (λ seg, is_identifier env seg = true) segs →
  Params.path_or_module ctx = Some (join (py ".") segs) →
  is_file env (mkPath (join (py ".") segs)) = false →
  let out := maybe_update_state env ctx p in
  out.1 = Ret ()
  ∧ State.module (state out.2) = Some (join (py ".") segs)
  ∧ State.file (state out.2) = State.file (state p).
Proof.
  intros Hne Hsegs Hpos Hfile. cbv zeta.
  pose proof (module_re_accepts env segs Hne Hsegs) as Hm.
  destruct (module_re_chars env _ Hm) as [Hnonempty _].
  rewrite maybe_update_state_eq. unfold updated_state. rewrite Hpos.
  destruct (join (py ".") segs) as [|c t] eqn:Hj; [done|].
  cbn [truthy]. rewrite Hfile, Hm. cbn [fst snd state State.module State.file]. auto.
Qed.

Lemma dotted_name_is_taken_as_module_witness :
  let out := maybe_update_state Sample.env (Sample.positional (py "scrpt.py")) Sample.p0 in
  out.1 = Ret ()
  ∧ State.module (state out.2) = Some (py "scrpt.py")
  ∧ State.file (state out.2) = None.
Proof.
  apply (dotted_name_is_taken_as_module Sample.env (Sample.positional (py "scrpt.py"))
           [py "scrpt"; py "py"] Sample.p0).
  - discriminate.
  - repeat constructor.
  - reflexivity.
  - reflexivity.
Defined.

(** X3: a positional argument that is no existing file and contains a
    character that is neither a word character nor a dot (a path
    separator, a hyphen, a space) ends the process with status 1 and
    leaves the resolution state as it was. *)
Theorem positional_with_other_character_is_rejected
    (env : Env) (ctx : Params.t) (s : str) (c : N) (p : Proc) :
  Params.path_or_module ctx = Some s →
  c ∈ s → re_word env c = false → c ≠ 46%N →
  is_file env (mkPath s) = false →
  let out := maybe_update_state env ctx p in
  out.1 = Exit 1 ∧ state out.2 = state p ∧ commands out.2 = commands p
  ∧ loads (log out.2) = loads (log p).
Proof.
  intros Hpos Hc Hw Hdot Hfile. cbv zeta.
  assert (fullmatch (module_re env) s = false) as Hm.
  { destruct (fullmatch (module_re env) s) eqn:E; [|reflexivity]. exfalso.
    destruct (module_re_chars env s E) as [_ Hall].
    rewrite Forall_forall in Hall. destruct (Hall c Hc); congruence. }
  rewrite maybe_update_state_eq. unfold updated_state. rewrite Hpos.
  destruct s as [|x t]; [inversion Hc|].
  cbn [truthy]. rewrite Hfile, Hm. cbn [fst snd add_log state commands log].
  rewrite loads_add_stderr. auto.
Qed.

Lemma positional_with_other_character_is_rejected_witness :
  (maybe_update_state Sample.env (Sample.positional (py "pkg/missing.py")) Sample.p0).1
  = Exit 1.
Proof.
  apply (positional_with_other_character_is_rejected Sample.env
           (Sample.positional (py "pkg/missing.py")) (py "pkg/missing.py") 47%N Sample.p0).
  - reflexivity.
  - vm_compute. do 3 right. left.
  - reflexivity.
  - discriminate.
  - reflexivity.
Defined.

(** X4: repeating an update call that returned changes nothing: the
    second call returns and leaves the whole process as the first one
    left it. *)
Theorem maybe_update_state_idempotent (env : Env) (ctx : Params.t) (p : Proc) :
  let out := maybe_update_state env ctx p in
  out.1 = Ret () → maybe_update_state env ctx out.2 = (Ret (), out.2).
Proof.
  cbv zeta. rewrite maybe_update_state_eq.
  destruct (updated_state env ctx (state p)) as [st|] eqn:E; cbn [fst snd];
    [|discriminate].
  intros _. rewrite maybe_update_state_eq. cbn [state commands log].
  rewrite (updated_state_idempotent env ctx _ _ E). reflexivity.
Qed.

Lemma maybe_update_state_idempotent_witness :
  let ctx := Params.mk (Some (py "script.py")) (Some (py "zapp")) None in
  let out := maybe_update_state Sample.env ctx Sample.p0 in
  maybe_update_state Sample.env ctx out.2 = (Ret (), out.2).
Proof.
  apply (maybe_update_state_idempotent Sample.env
           (Params.mk (Some (py "script.py")) (Some (py "zapp")) None) Sample.p0).
  reflexivity.
Defined.

(** X5: an update call does one of two things.  It returns, having
    stored each override that is a non-empty string and kept the old
    value of each that is absent or empty, with the command table and the
    log untouched; or it exits with status 1, having stored nothing, not
    even the overrides given along with the bad positional argument. *)
Theorem maybe_update_state_overrides (env : Env) (ctx : Params.t) (p : Proc) :
  let out := maybe_update_state env ctx p in
  let keep (o old : option str) := if truthy_opt o then o else old in
  (out.1 = Ret ()
   ∧ State.app (state out.2) = keep (Params.app ctx) (State.app (state p))
   ∧ State.func (state out.2) = keep (Params.func ctx) (State.func (state p))
   ∧ commands out.2 = commands p ∧ log out.2 = log p)
  ∨ (out.1 = Exit 1 ∧ state out.2 = state p ∧ commands out.2 = commands p
     ∧ stdout_of (log out.2) = stdout_of (log p)
     ∧ loads (log out.2) = loads (log p)).
Proof.
  cbv zeta. rewrite maybe_update_state_eq.
  destruct (updated_state env ctx (state p)) as [st|] eqn:E; cbn [fst snd].
  - left. cbn [state commands log]. split; [reflexivity|].
    assert (State.app st = (if truthy_opt (Params.app ctx) then Params.app ctx
                            else State.app (state p))
            ∧ State.func st = (if truthy_opt (Params.func ctx) then Params.func ctx
                               else State.func (state p))) as [-> ->]; [|auto].
    unfold updated_state in E.
    destruct (Params.path_or_module ctx) as [s|]; [destruct (truthy s);
      [destruct (is_file env (mkPath s)); [|destruct (fullmatch (module_re env) s)]|]|];
      try discriminate; injection E as <-; auto.
  - right. cbn [add_log state commands log].
    rewrite loads_add_stderr, stdout_of_app, app_nil_r. auto.
Qed.

(** ** App discovery: further properties *)

Lemma first_bound_bound (test : PyObj → bool) (m : gmap str PyObj) (names : list str)
    (obj : PyObj) :
  first_bound test m names = Some obj →
  test obj = true ∧ ∃ name, name ∈ names ∧ m !! name = Some obj.
Proof.
  intros H. destruct (first_bound_Some test m names obj H) as (b & name & a & -> & Hm & Ht & _).
  split; [exact Ht|]. exists name. split; [|exact Hm].
  apply elem_of_app. right. left.
Qed.

(** If neither the preferred names nor the remaining ones yield an
    object passing the test, no binding of the namespace passes it. *)
Lemma first_bound_cover (env : Env) (test : PyObj → bool) (m : gmap str PyObj)
    (preferred : list str) :
  first_bound test m preferred = None →
  first_bound test m (set_iter env (dom m ∖ list_to_set preferred)) = None →
  ∀ name obj, m !! name = Some obj → test obj = false.
Proof.
  intros H1 H2 name obj Hm.
  destruct (decide (name ∈ preferred)) as [Hin|Hin].
  - eapply (proj1 (first_bound_None _ _ _) H1); eauto.
  - eapply (proj1 (first_bound_None _ _ _) H2); eauto.
    apply set_iter_elem. apply elem_of_difference. split.
    + apply elem_of_dom. eauto.
    + rewrite elem_of_list_to_set. exact Hin.
Qed.

(** X6: whatever [get_typer_from_module] returns comes from the module:
    an app it returns as found is a [typer.Typer] bound to some name, a
    function it wraps is a callable bound to some name, and a wrapped
    function is only returned without an app override.  The returned app
    still has its completion as constructed. *)
Theorem discovered_object_is_bound
    (env : Env) (module : gmap str PyObj) (p : Proc) (t : Typer) :
  (get_typer_from_module env module p).1 = Ret (Some t) →
  _add_completion_off t = false
  ∧ match typer_source t with
    | Existing obj =>
        isinstance_Typer obj = true ∧ ∃ name, module !! name = Some obj
    | SubApp func_obj =>
        callable func_obj = true ∧ (∃ name, module !! name = Some func_obj)
        ∧ override (State.app (state p)) = None
    end.
Proof.
  rewrite get_typer_from_module_eq.
  destruct (discover env module _ _) as [r|code|e] eqn:Hd; cbn [fst]; try discriminate.
  intros [= ->]. unfold discover in Hd.
  destruct (override (State.app (state p))) as [a|].
  { destruct (module !! a) as [obj|] eqn:Ha; [|discriminate].
    destruct (isinstance_Typer obj) eqn:Ht; [|discriminate].
    injection Hd as <-. cbn. eauto. }
  destruct (override (State.func (state p))) as [f|].
  { destruct (module !! f) as [obj|] eqn:Hf; [|discriminate].
    destruct (callable obj) eqn:Hc; [|discriminate].
    injection Hd as <-. cbn. eauto. }
  destruct (first_bound isinstance_Typer module default_app_names) as [o|] eqn:E1.
  { injection Hd as <-. destruct (first_bound_bound _ _ _ _ E1) as (Ht & name & _ & Hm).
    cbn. eauto. }
  destruct (first_bound isinstance_Typer module (set_iter env _)) as [o|] eqn:E2.
  { injection Hd as <-. destruct (first_bound_bound _ _ _ _ E2) as (Ht & name & _ & Hm).
    cbn. eauto. }
  destruct (first_bound callable module default_func_names) as [o|] eqn:E3.
  { injection Hd as <-. destruct (first_bound_bound _ _ _ _ E3) as (Ht & name & _ & Hm).
    cbn. eauto. }
  destruct (first_bound callable module (set_iter env _)) as [o|] eqn:E4; [|discriminate].
  injection Hd as <-. destruct (first_bound_bound _ _ _ _ E4) as (Ht & name & _ & Hm).
  cbn. eauto.
Qed.

Lemma discovered_object_is_bound_witness :
  isinstance_Typer (Sample.typer_obj 3) = true
  ∧ ∃ name, Sample.script_ns !! name = Some (Sample.typer_obj 3).
Proof.
  apply (discovered_object_is_bound Sample.env Sample.script_ns Sample.with_file
           (found_app (Sample.typer_obj 3))).
  reflexivity.
Defined.

(** X7: without overrides, a [typer.Typer] bound anywhere in the module
    wins over every callable: the call returns a found app, never a
    wrapped function, whatever functions the module binds under [main],
    [cli] or [app]. *)
Theorem typer_object_beats_callables
    (env : Env) (module : gmap str PyObj) (p : Proc) (name : str) (obj : PyObj) :
  override (State.app (state p)) = None →
  override (State.func (state p)) = None →
  module !! name = Some obj → isinstance_Typer obj = true →
  ∃ chosen,
    get_typer_from_module env module p = (Ret (Some (found_app chosen)), p)
    ∧ isinstance_Typer chosen = true.
Proof.
  intros Ha Hf Hm Ht. rewrite get_typer_from_module_eq, Ha, Hf. unfold discover.
  destruct (first_bound isinstance_Typer module default_app_names) as [o|] eqn:E1.
  { exists o. split; [reflexivity|]. apply (first_bound_bound _ _ _ _ E1). }
  destruct (first_bound isinstance_Typer module (set_iter env _)) as [o|] eqn:E2.
  { exists o. split; [reflexivity|]. apply (first_bound_bound _ _ _ _ E2). }
  exfalso. pose proof (first_bound_cover env _ _ _ E1 E2 name obj Hm). congruence.
Qed.

Lemma typer_object_beats_callables_witness :
  ∃ chosen,
    get_typer_from_module Sample.env Sample.script_ns Sample.with_file
      = (Ret (Some (found_app chosen)), Sample.with_file)
    ∧ isinstance_Typer chosen = true.
Proof.
  apply (typer_object_beats_callables Sample.env Sample.script_ns Sample.with_file
           (py "zapp") (Sample.typer_obj 3)); reflexivity.
Defined.

(** X8: the first preferred name decides outright.  Without overrides,
    a [typer.Typer] bound to [app] is the app returned, whatever else the
    module binds; and when the module binds no [typer.Typer] at all, a
    callable bound to [main] is the function wrapped, even if [cli] and
    [app] are callables too. *)
Theorem first_preferred_name_wins
    (env : Env) (module : gmap str PyObj) (p : Proc) (obj : PyObj) :
  override (State.app (state p)) = None →
  override (State.func (state p)) = None →
  (module !! py "app" = Some obj → isinstance_Typer obj = true →
   get_typer_from_module env module p = (Ret (Some (found_app obj)), p))
  ∧ (module !! py "main" = Some obj → callable obj = true →
     (∀ name o, module !! name = Some o → isinstance_Typer o = false) →
     get_typer_from_module env module p = (Ret (Some (sub_app obj)), p)).
Proof.
  intros Ha Hf. split.
  - intros Hm Ht. rewrite get_typer_from_module_eq, Ha, Hf. unfold discover.
    unfold default_app_names. rewrite first_bound_cons, Hm, Ht. reflexivity.
  - intros Hm Hc Hno. rewrite get_typer_from_module_eq, Ha, Hf. unfold discover.
    rewrite !(proj2 (first_bound_None isinstance_Typer module _)) by eauto.
    unfold default_func_names. rewrite first_bound_cons, Hm, Hc. reflexivity.
Qed.

Lemma first_preferred_name_wins_witness :
  get_typer_from_module Sample2.env Sample2.app_and_main Sample.with_file
  = (Ret (Some (found_app (Sample.typer_obj 5))), Sample.with_file).
Proof.
  apply (first_preferred_name_wins Sample2.env Sample2.app_and_main Sample.with_file
           (Sample.typer_obj 5)); reflexivity.
Defined.

(** ** Loading: further properties *)

(** X9: when [state.file] is set it alone decides what is loaded: the
    result, the log and the command table of [get_typer_from_state] are
    the same whatever [state.module] holds. *)
Theorem file_source_has_priority (env : Env) (p : Proc) (module : option str) :
  is_Some (State.file (state p)) →
  let out := get_typer_from_state env p in
  let out' := get_typer_from_state env (set_module p module) in
  out'.1 = out.1 ∧ log out'.2 = log out.2 ∧ commands out'.2 = commands out.2.
Proof.
  destruct p as [[a f fi mo] cmds lg]. cbn [state State.file]. intros [file ->].
  cbv zeta. rewrite !get_typer_from_state_eq. unfold set_module, locate_spec, import_error.
  cbn [state commands log State.app State.func State.file State.module].
  destruct (spec_from_file_location env file) as [spec|]; [|cbn; auto].
  destruct (exec_module env spec) as [m|code|e]; [|cbn; auto..].
  rewrite !get_typer_from_module_eq. unfold add_log, override_error.
  cbn [state commands log State.app State.func State.file State.module].
  destruct (discover env m (override a) (override f)); cbn; auto.
Qed.

Lemma file_source_has_priority_witness :
  let p := Sample.with_file in
  (get_typer_from_state Sample.env (set_module p (Some (py "mod")))).1
  = (get_typer_from_state Sample.env p).1.
Proof.
  apply (file_source_has_priority Sample.env Sample.with_file (Some (py "mod"))).
  cbn. eauto.
Defined.

(** X10: with no source configured, loading cannot succeed:
    [get_typer_from_state], and with it the [docs] command, prints
    "Could not import as Python module: None" on standard error and exits
    with status 1, having executed nothing. *)
Theorem no_source_cannot_import (env : Env) (name : str) (output : option Path) (p : Proc) :
  State.file (state p) = None → State.module (state p) = None →
  let p' := add_log p (Stderr (py "Could not import as Python module: None" ++ nl)) in
  get_typer_from_state env p = (Exit 1, p') ∧ docs env name output p = (Exit 1, p').
Proof.
  intros Hf Hm. cbv zeta.
  assert (get_typer_from_state env p
          = (Exit 1, add_log p (Stderr (py "Could not import as Python module: None" ++ nl))))
    as E.
  { rewrite get_typer_from_state_eq. unfold locate_spec, import_error.
    rewrite Hf, Hm. reflexivity. }
  split; [exact E|]. rewrite docs_eq, E. reflexivity.
Qed.

Lemma no_source_cannot_import_witness :
  docs Sample.env [] None Sample.p0
  = (Exit 1, add_log Sample.p0
               (Stderr (py "Could not import as Python module: None" ++ nl))).
Proof.
  apply (no_source_cannot_import Sample.env [] None Sample.p0); reflexivity.
Defined.

Lemma get_typer_from_state_returns (env : Env) (p : Proc) (r : option Typer) :
  (get_typer_from_state env p).1 = Ret r →
  ∃ spec m,
    locate_spec env (state p) = Ret (Some spec) ∧ exec_module env spec = Ret m
    ∧ discover env m (override (State.app (state p))) (override (State.func (state p)))
      = Ret r
    ∧ get_typer_from_state env p = (Ret r, add_log p (ExecModule spec)).
Proof.
  rewrite get_typer_from_state_eq.
  destruct (locate_spec env (state p)) as [[spec|]|code|e] eqn:Hs; try discriminate.
  destruct (exec_module env spec) as [m|code|e] eqn:He; try discriminate.
  rewrite get_typer_from_module_eq. cbn [add_log state].
  destruct (discover env m _ _) as [r'|code|e] eqn:Hd; try discriminate.
  cbn [fst]. intros [= ->]. exists spec, m.
  split; [reflexivity|]. split; [exact He|]. split; [exact Hd | reflexivity].
Qed.



(** X12: when the code of the loaded module exits or raises while it is
    executed, that outcome is the outcome of [get_typer_from_state], of
    [docs], and of [maybe_add_run_to_cli] on a group without [run]; the
    execution is on record and nothing else has happened. *)
Theorem module_failure_propagates
    (env : Env) (name : str) (output : option Path) (p : Proc) (spec : ModuleSpec) :
  locate_spec env (state p) = Ret (Some spec) →
  let p' := add_log p (ExecModule spec) in
  (∀ code, exec_module env spec = Exit code →
     get_typer_from_state env p = (Exit code, p')
     ∧ docs env name output p = (Exit code, p')
     ∧ (py "run" ∉ dom (commands p) → maybe_add_run_to_cli env p = (Exit code, p')))
  ∧ (∀ e, exec_module env spec = Raise e →
       get_typer_from_state env p = (Raise e, p')
       ∧ docs env name output p = (Raise e, p')
       ∧ (py "run" ∉ dom (commands p) → maybe_add_run_to_cli env p = (Raise e, p'))).
Proof.
  intros Hs. cbv zeta.
  assert (has_source (state p) = true) as Hsrc.
  { unfold locate_spec in Hs. unfold has_source.
    destruct (State.file (state p)); [reflexivity|].
    destruct (truthy_opt (State.module (state p))); [reflexivity | discriminate]. }
  split.
  - intros code He.
    assert (get_typer_from_state env p = (Exit code, add_log p (ExecModule spec))) as E.
    { rewrite get_typer_from_state_eq, Hs, He. reflexivity. }
    split; [exact E|]. split; [rewrite docs_eq, E; reflexivity|].
    intros Hrun. rewrite maybe_add_run_to_cli_eq.
    destruct (decide (py "run" ∈ dom (commands p))); [contradiction|].
    rewrite Hsrc, E. reflexivity.
  - intros e He.
    assert (get_typer_from_state env p = (Raise e, add_log p (ExecModule spec))) as E.
    { rewrite get_typer_from_state_eq, Hs, He. reflexivity. }
    split; [exact E|]. split; [rewrite docs_eq, E; reflexivity|].
    intros Hrun. rewrite maybe_add_run_to_cli_eq.
    destruct (decide (py "run" ∈ dom (commands p))); [contradiction|].
    rewrite Hsrc, E. reflexivity.
Qed.

Lemma module_failure_propagates_witness :
  (maybe_add_run_to_cli Sample2.env Sample2.broken).1 = Exit 3
  ∧ commands (maybe_add_run_to_cli Sample2.env Sample2.broken).2 = ∅.
Proof.
  destruct (module_failure_propagates Sample2.env [] None Sample2.broken
              (mkSpec (py "broken.py") (py "broken.py")) eq_refl) as [H _]; cbv zeta in H.
  destruct (H 3%Z eq_refl) as (_ & _ & ->).
  - split; reflexivity.
  - intros Hin. apply elem_of_dom in Hin as [? Hin]. vm_compute in Hin. discriminate Hin.
Defined.

(** ** The [docs] command: further properties *)

(** X13: [docs] never alters the resolution state or the command table
    of the host group, whatever its outcome; the app it documents is
    loaded for the purpose and not attached anywhere. *)
Theorem docs_leaves_state_and_commands
    (env : Env) (name : str) (output : option Path) (p : Proc) :
  let out := docs env name output p in
  state out.2 = state p ∧ commands out.2 = commands p.
Proof.
  cbv zeta. rewrite docs_eq.
  pose proof (get_typer_from_state_frame env p) as (Hst & Hc & _ & _).
  destruct (get_typer_from_state env p) as [[[t|]|code|e] q]; cbn [fst snd] in *;
    [destruct output|..]; cbn [snd add_log state commands]; auto.
Qed.

Lemma loads_snoc (l : list Event) (e : Event) :
  loads (l ++ [e]) = (if is_load e then 1 else 0) + loads l.
Proof.
  unfold loads. rewrite filter_app, length_app. destruct e; simpl; lia.
Qed.

(** X14: [docs] does not reuse what lazy augmentation loaded: after a
    returning [maybe_add_run_to_cli] that had to load the source, [docs]
    executes the module a second time. *)
Theorem docs_loads_again_after_augmentation
    (env : Env) (name : str) (output : option Path) (p : Proc) :
  py "run" ∉ dom (commands p) →
  has_source (state p) = true →
  let out1 := maybe_add_run_to_cli env p in
  out1.1 = Ret () →
  let out2 := docs env name output out1.2 in
  loads (log out1.2) = 1 + loads (log p) ∧ loads (log out2.2) = 2 + loads (log p).
Proof.
  intros Hrun Hsrc. cbv zeta. rewrite maybe_add_run_to_cli_eq.
  destruct (decide (py "run" ∈ dom (commands p))); [contradiction|].
  rewrite Hsrc.
  destruct (get_typer_from_state env p) as [r q] eqn:E.
  assert (∀ t, r = Ret t →
            loads (log q) = 1 + loads (log p)
            ∧ ∀ cmds,
                loads (log (docs env name output (mkProc (state q) cmds (log q))).2)
                = 2 + loads (log p)) as Hkey.
  { intros t ->.
    destruct (get_typer_from_state_returns env p t) as (spec & m & Hs & He & Hd & E').
    { rewrite E. reflexivity. }
    rewrite E in E'. injection E' as ->. cbn [add_log log state].
    rewrite loads_add_exec. split; [reflexivity|]. intros cmds.
    rewrite docs_eq, get_typer_from_state_eq. cbn [state]. rewrite Hs, He.
    rewrite get_typer_from_module_eq. cbn [add_log state]. rewrite Hd.
    destruct t as [t|]; [destruct output|]; cbn [snd add_log log];
      rewrite !loads_snoc; cbn [is_load]; lia. }
  destruct r as [[t|]|code|e]; cbn [fst snd]; try discriminate; intros _.
  - destruct (Hkey _ eq_refl) as [H1 H2]. split; [exact H1|].
    unfold attach_run. apply H2.
  - destruct (Hkey _ eq_refl) as [H1 H2]. split; [exact H1|].
    specialize (H2 (commands q)). destruct q as [qs qc ql]. exact H2.
Qed.

Lemma docs_loads_again_after_augmentation_witness :
  loads (log (docs Sample.env [] None
                (maybe_add_run_to_cli Sample.env Sample.with_file).2).2) = 2.
Proof.
  apply (docs_loads_again_after_augmentation Sample.env [] None Sample.with_file).
  - intros Hin. apply elem_of_dom in Hin as [? Hin]. vm_compute in Hin. discriminate Hin.
  - reflexivity.
  - reflexivity.
Defined.

(** ** The entry points of the host group *)

Lemma maybe_add_run_eq (env : Env) (ctx : Params.t) (p : Proc) :
  maybe_add_run env ctx p =
  match updated_state env ctx (state p) with
  | Some st => maybe_add_run_to_cli env (mkProc st (commands p) (log p))
  | None =>
      (Exit 1, add_log p (Stderr ((py "Not a valid file or Python module: "
                                     ++ default [] (Params.path_or_module ctx)) ++ nl)))
  end.
Proof.
  unfold maybe_add_run. unfold mbind at 1, M_bind at 1.
  rewrite maybe_update_state_eq.
  destruct (updated_state env ctx (state p)); reflexivity.
Qed.

Lemma get_command_eq (env : Env) (ctx : Params.t) (name : str) (p : Proc) :
  TyperCLIGroup.get_command env ctx name p =
  match maybe_add_run env ctx p with
  | (Ret _, p') => (Ret (commands p' !! name), p')
  | (Exit code, p') => (Exit code, p')
  | (Raise e, p') => (Raise e, p')
  end.
Proof.
  unfold TyperCLIGroup.get_command. unfold mbind at 1, M_bind at 1.
  destruct (maybe_add_run env ctx p) as [[[]|code|e] p']; reflexivity.
Qed.

Lemma list_commands_eq (env : Env) (ctx : Params.t) (p : Proc) :
  TyperCLIGroup.list_commands env ctx p =
  match maybe_add_run env ctx p with
  | (Ret _, p') => (Ret (sorted (elements (dom (commands p')))), p')
  | (Exit code, p') => (Exit code, p')
  | (Raise e, p') => (Raise e, p')
  end.
Proof.
  unfold TyperCLIGroup.list_commands. unfold mbind at 1, M_bind at 1.
  destruct (maybe_add_run env ctx p) as [[[]|code|e] p']; reflexivity.
Qed.

(** Lazy augmentation keeps the resolution state and every entry of the
    command table other than [run]. *)
Lemma maybe_add_run_to_cli_keeps (env : Env) (p : Proc) :
  let out := maybe_add_run_to_cli env p in
  state out.2 = state p
  ∧ (∀ name, name ≠ py "run" → commands out.2 !! name = commands p !! name)
  ∧ loads (log out.2) ≤ S (loads (log p)).
Proof.
  cbv zeta. pose proof (get_typer_from_state_frame env p) as (Hst & Hc & Hl & _).
  rewrite maybe_add_run_to_cli_eq.
  destruct (decide (py "run" ∈ dom (commands p))); [auto|].
  destruct (has_source (state p)); [|auto].
  destruct (get_typer_from_state env p) as [[[obj|]|code|e] q]; cbn [fst snd] in *;
    try (rewrite Hst, Hc; auto).
  unfold attach_run. cbn [state commands log]. split; [exact Hst|]. split; [|exact Hl].
  intros name Hne. rewrite lookup_insert_ne by congruence. rewrite Hc. reflexivity.
Qed.

Lemma str_le_total : Total str_le.
Proof.
  intros a. unfold str_le. induction a as [|x a IH]; intros [|y b]; simpl; auto.
  destruct (N.ltb_spec x y), (N.ltb_spec y x), (N.eqb_spec x y), (N.eqb_spec y x);
    auto; lia.
Qed.

(** X15: the commands the host group defines itself are never shadowed.
    When [get_command] returns, a name other than [run] resolves to what
    the group held before the call; and if the group already held a
    [run] command, every name does, and no module was executed. *)
Theorem get_command_keeps_host_commands
    (env : Env) (ctx : Params.t) (name : str) (p : Proc) (r : option Command) :
  let out := TyperCLIGroup.get_command env ctx name p in
  out.1 = Ret r →
  (name ≠ py "run" → r = commands p !! name)
  ∧ (py "run" ∈ dom (commands p) →
     r = commands p !! name ∧ commands out.2 = commands p
     ∧ loads (log out.2) = loads (log p)).
Proof.
  cbv zeta. rewrite get_command_eq, maybe_add_run_eq.
  destruct (updated_state env ctx (state p)) as [st|]; [|discriminate].
  set (q := mkProc st (commands p) (log p)).
  pose proof (maybe_add_run_to_cli_keeps env q) as (_ & Hk & _). cbv zeta in Hk.
  pose proof (maybe_add_run_to_cli_present env q) as Hp.
  destruct (maybe_add_run_to_cli env q) as [[[]|code|e] q'] eqn:E; cbn [fst snd] in *;
    try discriminate.
  intros [= <-]. split.
  - intros Hne. apply Hk. exact Hne.
  - intros Hrun. specialize (Hp Hrun). injection Hp as Hq. subst q'. subst q.
    cbn [commands log]. auto.
Qed.

Lemma get_command_keeps_host_commands_witness :
  let p := mkProc State.init {[ py "run" := Sample.hello ]} [] in
  let out := TyperCLIGroup.get_command Sample.env (Sample.positional (py "script.py"))
               (py "run") p in
  out.1 = Ret (Some Sample.hello) ∧ loads (log out.2) = 0.
Proof.
  cbv zeta.
  destruct (get_command_keeps_host_commands Sample.env
              (Sample.positional (py "script.py")) (py "run")
              (mkProc State.init {[ py "run" := Sample.hello ]} []) (Some Sample.hello))
    as [_ H].
  - reflexivity.
  - destruct H as (_ & _ & H).
    + apply elem_of_dom. eexists. reflexivity.
    + split; [reflexivity | exact H].
Defined.

(** X16: listing and lookup agree.  When [list_commands] returns, the
    names it lists are in code-point order without repetition, and
    [get_command] from the same process finds a command exactly for the
    names listed. *)
Theorem listing_agrees_with_lookup
    (env : Env) (ctx : Params.t) (p : Proc) (names : list str) :
  (TyperCLIGroup.list_commands env ctx p).1 = Ret names →
  Sorted str_le names ∧ NoDup names
  ∧ ∀ name, ∃ r, (TyperCLIGroup.get_command env ctx name p).1 = Ret r
                 ∧ (name ∈ names ↔ is_Some r).
Proof.
  rewrite list_commands_eq.
  destruct (maybe_add_run env ctx p) as [[[]|code|e] p'] eqn:E; cbn [fst];
    try discriminate.
  intros [= <-]. unfold sorted.
  pose proof (merge_sort_Permutation str_le (elements (dom (commands p')))) as Hperm.
  split; [apply Sorted_merge_sort, str_le_total|].
  split; [rewrite Hperm; apply NoDup_elements|].
  intros name. rewrite get_command_eq, E. cbn [fst]. eexists. split; [reflexivity|].
  rewrite Hperm, elem_of_elements, elem_of_dom. reflexivity.
Qed.

Lemma listing_agrees_with_lookup_witness :
  (TyperCLIGroup.list_commands Sample.env (Sample.positional (py "script.py"))
     (mkProc State.init {[ py "utils" := Sample.hello ]} [])).1
  = Ret [py "run"; py "utils"]
  ∧ NoDup [py "run"; py "utils"].
Proof.
  split; [vm_compute; reflexivity|].
  apply (listing_agrees_with_lookup Sample.env (Sample.positional (py "script.py"))
           (mkProc State.init {[ py "utils" := Sample.hello ]} []) [py "run"; py "utils"]).
  vm_compute. reflexivity.
Defined.

(** X17: once [run] is in place, the whole of [maybe_add_run] (update
    and augmentation) is a no-op when repeated with the same arguments:
    it returns and leaves the process exactly as it was. *)
Theorem maybe_add_run_repeats_as_noop (env : Env) (ctx : Params.t) (p : Proc) :
  let out := maybe_add_run env ctx p in
  out.1 = Ret () → py "run" ∈ dom (commands out.2) →
  maybe_add_run env ctx out.2 = (Ret (), out.2).
Proof.
  cbv zeta. rewrite (maybe_add_run_eq env ctx p).
  destruct (updated_state env ctx (state p)) as [st|] eqn:E; [|discriminate].
  set (q := mkProc st (commands p) (log p)).
  pose proof (maybe_add_run_to_cli_keeps env q) as (Hst & _ & _). cbv zeta in Hst.
  destruct (maybe_add_run_to_cli env q) as [r q'] eqn:Eq. cbn [fst snd] in *.
  intros _ Hrun. rewrite maybe_add_run_eq, Hst. unfold q. cbn [state].
  rewrite (updated_state_idempotent env ctx _ _ E).
  replace (mkProc st (commands q') (log q')) with q'.
  - apply maybe_add_run_to_cli_present. exact Hrun.
  - destruct q' as [qs qc ql]. unfold q in Hst. cbn [state commands log] in *.
    subst qs. reflexivity.
Qed.

Lemma maybe_add_run_repeats_as_noop_witness :
  let ctx := Sample.positional (py "script.py") in
  let out := maybe_add_run Sample.env ctx Sample.p0 in
  maybe_add_run Sample.env ctx out.2 = (Ret (), out.2).
Proof.
  apply (maybe_add_run_repeats_as_noop Sample.env (Sample.positional (py "script.py"))
           Sample.p0).
  - reflexivity.
  - apply elem_of_dom. eexists. vm_compute. reflexivity.
Defined.



(** X19: a bad positional argument stops every entry point before
    anything is loaded: [maybe_add_run] exits with status 1 after the one
    line on standard error, and so do [get_command] and [list_commands],
    even when a source had been configured earlier. *)
Theorem bad_positional_stops_entry_points
    (env : Env) (ctx : Params.t) (s : str) (p : Proc) :
  Params.path_or_module ctx = Some s → s ≠ [] →
  is_file env (mkPath s) = false → fullmatch (module_re env) s = false →
  let p' := add_log p (Stderr ((py "Not a valid file or Python module: " ++ s) ++ nl)) in
  maybe_add_run env ctx p = (Exit 1, p')
  ∧ (∀ name, TyperCLIGroup.get_command env ctx name p = (Exit 1, p'))
  ∧ TyperCLIGroup.list_commands env ctx p = (Exit 1, p')
  ∧ loads (log p') = loads (log p).
Proof.
  intros Hpos Hne Hfile Hm. cbv zeta.
  assert (maybe_add_run env ctx p
          = (Exit 1, add_log p (Stderr ((py "Not a valid file or Python module: " ++ s)
                                          ++ nl)))) as E.
  { rewrite maybe_add_run_eq. unfold updated_state.
    rewrite Hpos, (proj2 (truthy_nonempty s) Hne), Hfile, Hm. reflexivity. }
  split; [exact E|]. split; [|split].
  - intros name. rewrite get_command_eq, E. reflexivity.
  - rewrite list_commands_eq, E. reflexivity.
  - cbn [add_log log]. apply loads_add_stderr.
Qed.

Lemma bad_positional_stops_entry_points_witness :
  (TyperCLIGroup.list_commands Sample.env (Sample.positional (py "a-b")) Sample.with_file).1
  = Exit 1.
Proof.
  destruct (bad_positional_stops_entry_points Sample.env (Sample.positional (py "a-b"))
              (py "a-b") Sample.with_file) as (_ & _ & -> & _); try reflexivity.
  discriminate.
Defined.

(** ** The renderer: further properties *)

Lemma records_of_skip (kind : str) (ps1 ps2 : list Param) (q : Param) :
  get_help_record q = None
  ∨ (param_type_name q ≠ py "argument" ∧ param_type_name q ≠ py "option") →
  kind = py "argument" ∨ kind = py "option" →
  records_of kind (ps1 ++ q :: ps2) = records_of kind (ps1 ++ ps2).
Proof.
  intros Hq Hkind. unfold records_of. rewrite !omap_app. f_equal.
  match goal with |- omap ?f (q :: ps2) = _ =>
    change (omap f (q :: ps2))
      with (match f q with Some y => y :: omap f ps2 | None => omap f ps2 end)
  end.
  cbv beta. destruct (get_help_record q) as [rv|]; [|reflexivity].
  destruct Hq as [Hq|[Ha Ho]]; [discriminate|].
  rewrite bool_decide_eq_false_2; [reflexivity|].
  destruct Hkind as [-> | ->]; assumption.
Qed.

(** X20: parameters that give no help record (hidden ones), and
    parameters that are neither arguments nor options, never show in the
    docs: the rendering is the same with and without such a parameter,
    wherever it stands in the parameter list. *)
Theorem params_without_record_are_not_rendered
    (n h : option str) (sh : str) (up : list str) (ps1 ps2 : list Param) (q : Param)
    (ep : option str) (ch : option (list Command))
    (indent : nat) (name call_prefix : str) :
  get_help_record q = None
  ∨ (param_type_name q ≠ py "argument" ∧ param_type_name q ≠ py "option") →
  get_docs_for_click (mkCommand n h sh up (ps1 ++ q :: ps2) ep ch) indent name call_prefix
  = get_docs_for_click (mkCommand n h sh up (ps1 ++ ps2) ep ch) indent name call_prefix.
Proof.
  intros Hq. rewrite !get_docs_for_click_unfold. cbv zeta.
  unfold command_name_of, children. cbn [cmd_name cmd_children]. f_equal.
  unfold own_docs, help_docs, usage_docs, args_docs, opts_docs, epilog_docs, commands_docs.
  cbn [cmd_help collect_usage_pieces get_params cmd_epilog cmd_children].
  rewrite !(records_of_skip _ ps1 ps2 q Hq) by auto. reflexivity.
Qed.

Lemma params_without_record_are_not_rendered_witness :
  let hidden := mkParam (py "option") None in
  let shown := mkParam (py "option") (Some (py "--count", py "How many.")) in
  get_docs_for_click
    (mkCommand (Some (py "hello")) None [] [py "[OPTIONS]"] ([shown] ++ hidden :: []) None None)
    0 [] []
  = get_docs_for_click
      (mkCommand (Some (py "hello")) None [] [py "[OPTIONS]"] ([shown] ++ []) None None)
      0 [] [].
Proof.
  apply (params_without_record_are_not_rendered (Some (py "hello")) None []
           [py "[OPTIONS]"] [mkParam (py "option") (Some (py "--count", py "How many."))]
           [] (mkParam (py "option") None) None None 0 [] []).
  left. reflexivity.
Defined.




Lemma join_cons_cons (sep p q : str) (ps : list str) :
  join sep ((p ++ sep ++ q) :: ps) = join sep (p :: q :: ps).
Proof. rewrite !join_cons, fmap_cons, concat_cons, <- !app_assoc. reflexivity. Qed.

(** X22: headings carry the command path.  The section of the command
    reached along a path of children sits in the rendering with a heading
    one level deeper per step, and when the root has a non-empty command
    name the heading names the root and every command on the way, joined
    by spaces. *)
Theorem heading_shows_command_path (path : list nat) :
  ∀ (obj : Command) (indent : nat) (name call_prefix : str) (command_name : option str),
    command_name_at obj name call_prefix path = Some command_name →
    (∃ before after,
       get_docs_for_click obj indent name call_prefix
       = before ++ heading (indent + length path) command_name ++ after)
    ∧ (∀ root, command_name_of obj name call_prefix = Some root → root ≠ [] →
         command_name = Some (join (py " ") (root :: names_along obj path))).
Proof.
  induction path as [|i rest IH]; intros obj indent name call_prefix cn Hcn.
  - cbn [command_name_at] in Hcn. injection Hcn as <-. split.
    + rewrite get_docs_for_click_unfold. cbv zeta. unfold own_docs.
      exists []. eexists. cbn [length]. rewrite Nat.add_0_r, <- !app_assoc. reflexivity.
    + intros root Hroot _. rewrite Hroot. reflexivity.
  - cbn [command_name_at names_along] in *.
    destruct (children obj !! i) as [c|] eqn:Hc; [|discriminate].
    destruct (IH c (S indent) [] _ cn Hcn) as [(pre & post & Hdocs) Hname]. split.
    + rewrite get_docs_for_click_unfold. cbv zeta.
      set (render := λ command_obj : Command,
             get_docs_for_click command_obj (S indent) []
               (use_prefix_of (command_name_of obj name call_prefix))).
      replace (indent + length (i :: rest)) with (S indent + length rest)
        by (cbn [length]; lia).
      exists (own_docs obj indent (command_name_of obj name call_prefix)
              ++ concat (render <$> take i (children obj)) ++ pre),
             (post ++ concat (render <$> drop (S i) (children obj))).
      rewrite <- (take_drop_middle (children obj) i c Hc) at 1.
      rewrite fmap_app, fmap_cons, concat_app, concat_cons.
      unfold render at 2. rewrite Hdocs, <- !app_assoc. reflexivity.
    + intros root Hroot Hne. rewrite Hroot in Hname.
      assert (use_prefix_of (Some root) = root) as Hpre.
      { unfold use_prefix_of. cbn [truthy_opt fmt_opt].
        rewrite (proj2 (truthy_nonempty root) Hne). reflexivity. }
      rewrite Hpre in Hname.
      rewrite (Hname (root ++ py " " ++ fmt_opt (cmd_name c))).
      * rewrite join_cons_cons. reflexivity.
      * unfold command_name_of. cbn [truthy].
        rewrite (proj2 (truthy_nonempty root) Hne). reflexivity.
      * destruct root; [done | discriminate].
Qed.

Lemma heading_shows_command_path_witness :
  ∃ before after,
    get_docs_for_click tree3 0 [] []
    = before ++ heading 2 (Some (py "top sub b")) ++ after.
Proof.
  destruct (heading_shows_command_path [1; 0] tree3 0 [] [] (Some (py "top sub b")))
    as [H _].
  - reflexivity.
  - exact H.
Defined.

(** ** Overrides across update calls *)

Lemma updated_state_overrides (env : Env) (ctx : Params.t) (st st' : State.t) :
  updated_state env ctx st = Some st' →
  State.app st' = (if truthy_opt (Params.app ctx) then Params.app ctx else State.app st)
  ∧ State.func st' = (if truthy_opt (Params.func ctx) then Params.func ctx else State.func st).
Proof.
  unfold updated_state. intros E.
  destruct (Params.path_or_module ctx) as [s|]; [destruct (truthy s);
    [destruct (is_file env (mkPath s)); [|destruct (fullmatch (module_re env) s)]|]|];
    try discriminate; injection E as <-; auto.
Qed.

(** X23: overrides stick.  Along every sequence of update calls, an app
    or function override that is set stays set: a later call can replace
    it with another non-empty name, but a call without the option, or
    with an empty one, keeps the old value, and no call removes it. *)
Theorem overrides_stay_set (env : Env) (ctxs : list Params.t) :
  ∀ p,
    let st' := state (update_calls env ctxs p).2 in
    (truthy_opt (State.app (state p)) = true → truthy_opt (State.app st') = true)
    ∧ (truthy_opt (State.func (state p)) = true → truthy_opt (State.func st') = true)
    ∧ (Forall (λ ctx, truthy_opt (Params.app ctx) = false) ctxs →
       State.app st' = State.app (state p))
    ∧ (Forall (λ ctx, truthy_opt (Params.func ctx) = false) ctxs →
       State.func st' = State.func (state p)).
Proof.
  induction ctxs as [|ctx rest IH]; intros p; cbv zeta; [cbn; auto|].
  rewrite update_calls_cons, maybe_update_state_eq.
  destruct (updated_state env ctx (state p)) as [st|] eqn:E.
  - destruct (updated_state_overrides env ctx _ _ E) as [Ha Hf].
    specialize (IH (mkProc st (commands p) (log p))). cbv zeta in IH.
    cbn [state] in IH. destruct IH as (IHa & IHf & IHka & IHkf).
    split; [|split; [|split]].
    + intros H. apply IHa. rewrite Ha.
      destruct (truthy_opt (Params.app ctx)) eqn:T; [exact T | exact H].
    + intros H. apply IHf. rewrite Hf.
      destruct (truthy_opt (Params.func ctx)) eqn:T; [exact T | exact H].
    + intros Hall. inversion Hall as [|? ? Hctx Hrest]; subst.
      rewrite (IHka Hrest), Ha, Hctx. reflexivity.
    + intros Hall. inversion Hall as [|? ? Hctx Hrest]; subst.
      rewrite (IHkf Hrest), Hf, Hctx. reflexivity.
  - cbn [snd add_log state]. auto.
Qed.

Lemma overrides_stay_set_witness :
  let ctxs := [Params.mk (Some (py "script.py")) (Some (py "zapp")) None;
               Params.mk (Some (py "script.py")) None None] in
  truthy_opt (State.app (state (update_calls Sample.env ctxs
                                  (mkProc (State.mk (Some (py "cli")) None None None) ∅ [])).2))
  = true.
Proof.
  apply (overrides_stay_set Sample.env
           [Params.mk (Some (py "script.py")) (Some (py "zapp")) None;
            Params.mk (Some (py "script.py")) None None]
           (mkProc (State.mk (Some (py "cli")) None None None) ∅ [])).
  reflexivity.
Defined.
